(** * GitGenie: the line differ of the [DiffViewer] component

    A shallow embedding of [DiffViewer] (frontend component) and of the
    [generateDiff] closure it defines, followed by the properties of the
    differ: reconstruction of both documents, line numbering, the one-line
    lookahead policy, the summary counts, termination of the alignment loop
    and the terminal outcomes of the entry point. *)

From Stdlib Require Import String Ascii Arith Lia.
From stdpp Require Import base decidable option list strings gmap.
From Equations Require Import Equations.

Open Scope string_scope.
Open Scope list_scope.
Open Scope nat_scope.

(** ** JavaScript values and completions *)

(** A thrown JavaScript error: its constructor name and its [message]. *)
Record JsError := mkError { errorName : string; message : string }.

(** The result of evaluating a piece of code: a value, or a thrown error. *)
Inductive Completion (A : Type) :=
| Normal (a : A)
| Throw (e : JsError).
Arguments Normal {A} a.
Arguments Throw {A} e.

#[global] Instance Completion_ret : MRet Completion := fun _ a => Normal a.

#[global] Instance Completion_bind : MBind Completion := fun _ _ k c =>
  match c with
  | Normal a => k a
  | Throw e => Throw e
  end.

(** [try { body } catch (error) { handler }] *)
Definition tryCatch {A} (body : Completion A) (handler : JsError -> Completion A)
  : Completion A :=
  match body with
  | Normal a => Normal a
  | Throw e => handler e
  end.

(** The values a prop of the component can hold.  Strings, [null] and
    [undefined] are kept apart; a value of any other type (number, boolean,
    object, ...) is described by what the two conversions applied to it by
    the component do: [ToBoolean], and [String(v)], which returns a string
    or throws (an object without usable [toString]/[valueOf], or one whose
    [toString] throws). *)
Inductive JsValue :=
| JsUndefined
| JsNull
| JsString (s : string)
| JsOther (truthy : bool) (str : Completion string).

(** [ToBoolean]: what [!v] negates. *)
Definition toBoolean (v : JsValue) : bool :=
  match v with
  | JsUndefined => false
  | JsNull => false
  | JsString s => negb (bool_decide (s = ""))
  | JsOther truthy _ => truthy
  end.

(** [typeof v === 'string' ? v : String(v)] *)
Definition coerceToString (v : JsValue) : Completion string :=
  match v with
  | JsString s => Normal s
  | JsUndefined => Normal "undefined"
  | JsNull => Normal "null"
  | JsOther _ str => str
  end.

(** Resolution of an identifier against the bindings in scope; an
    identifier bound nowhere throws a [ReferenceError]. *)
Fixpoint resolveIdentifier (scope : list (string * JsValue)) (name : string)
  : Completion JsValue :=
  match scope with
  | [] => Throw (mkError "ReferenceError" (name +:+ " is not defined"))
  | (n, v) :: rest => if bool_decide (n = name) then Normal v
                      else resolveIdentifier rest name
  end.

(** ** Splitting and joining on the newline character *)

Definition newline : ascii := "010"%char.
Definition carriageReturn : ascii := "013"%char.

(** [text.split('\n')], the built-in [String.prototype.split] with a
    separator of one code unit: the scan keeps the segment read so far in
    [seg] and closes it at every newline and at the end of the text.  A text
    is a sequence of code units, for which [ascii] stands; only equality of
    a code unit with the newline matters below. *)
Fixpoint splitFrom (seg : string) (text : string) : list string :=
  match text with
  | EmptyString => [seg]
  | String c rest =>
      if bool_decide (c = newline) then seg :: splitFrom "" rest
      else splitFrom (seg +:+ String c "") rest
  end.

Definition split (text : string) : list string := splitFrom "" text.

(** [lines.join('\n')] *)
Fixpoint join (lines : list string) : string :=
  match lines with
  | [] => ""
  | [l] => l
  | l :: rest => l +:+ String newline (join rest)
  end.

(** ** Line records *)

Inductive LineType := addition | deletion | context.

#[global] Instance LineType_eq_dec : EqDecision LineType.
Proof. solve_decision. Defined.

(** An entry of the [diff] array.  [content] is an array read, hence a
    string or [undefined] ([None]); a line number is a number or [null]
    ([None]).  Cursors and line numbers are array indices and their
    successors, on which the arithmetic of JavaScript numbers is exact:
    they are natural numbers here. *)
Record DiffLine := mkLine {
  type : LineType;
  content : option string;
  oldLineNumber : option nat;
  newLineNumber : option nat
}.

(** ** The alignment loop of [generateDiff] *)

Record LoopState := mkState {
  oldIndex : nat;
  newIndex : nat;
  diff : list DiffLine
}.

Section Aligner.
Variables oldLines newLines : list string.

(** [oldIndex < oldLines.length || newIndex < newLines.length] *)
Definition loopCond (st : LoopState) : bool :=
  bool_decide (oldIndex st < length oldLines)
  || bool_decide (newIndex st < length newLines).

(** One iteration of the [while] body.  [l !! i] is the array read
    [l[i]], [None] standing for [undefined] past the end; [===] on two
    such reads is equality of the options. *)
Definition loopBody (st : LoopState) : LoopState :=
  let oldLine := oldLines !! oldIndex st in
  let newLine := newLines !! newIndex st in
  if bool_decide (length oldLines <= oldIndex st) then
    mkState (oldIndex st) (newIndex st + 1)
      (diff st ++ [mkLine addition newLine None (Some (newIndex st + 1))])
  else if bool_decide (length newLines <= newIndex st) then
    mkState (oldIndex st + 1) (newIndex st)
      (diff st ++ [mkLine deletion oldLine (Some (oldIndex st + 1)) None])
  else if bool_decide (oldLine = newLine) then
    mkState (oldIndex st + 1) (newIndex st + 1)
      (diff st ++ [mkLine context oldLine (Some (oldIndex st + 1))
                                          (Some (newIndex st + 1))])
  else
    let nextOldLine := oldLines !! (oldIndex st + 1) in
    let nextNewLine := newLines !! (newIndex st + 1) in
    if bool_decide (nextOldLine = newLine) then
      mkState (oldIndex st + 1) (newIndex st)
        (diff st ++ [mkLine deletion oldLine (Some (oldIndex st + 1)) None])
    else if bool_decide (nextNewLine = oldLine) then
      mkState (oldIndex st) (newIndex st + 1)
        (diff st ++ [mkLine addition newLine None (Some (newIndex st + 1))])
    else
      mkState (oldIndex st + 1) (newIndex st + 1)
        (diff st ++ [mkLine deletion oldLine (Some (oldIndex st + 1)) None;
                     mkLine addition newLine None (Some (newIndex st + 1))]).

(** Lines not yet consumed on either side. *)
Definition remaining (st : LoopState) : nat :=
  (length oldLines - oldIndex st) + (length newLines - newIndex st).

(** [while (cond) { body }]: every iteration consumes a line on at least
    one side, which is what makes the loop a total function. *)
Equations? whileLoop (st : LoopState) : LoopState by wf (remaining st) lt :=
  whileLoop st with Sumbool.sumbool_of_bool (loopCond st) := {
    | left Hc => whileLoop (loopBody st)
    | right _ => st }.
Proof.
  unfold loopCond in Hc. apply orb_true_iff in Hc.
  rewrite !bool_decide_eq_true in Hc.
  unfold remaining, loopBody.
  repeat case_bool_decide; simpl; lia.
Qed.

(** The same loop cut after [fuel] iterations: [None] when the condition
    still holds with the fuel spent. *)
Fixpoint whileFuel (fuel : nat) (st : LoopState) : option LoopState :=
  if loopCond st then
    match fuel with
    | 0 => None
    | S fuel' => whileFuel fuel' (loopBody st)
    end
  else Some st.

End Aligner.

(** [const diff = []; let oldIndex = 0; let newIndex = 0;] *)
Definition initialState : LoopState := mkState 0 0 [].

Definition generateDiff (oldText newText : string) : list DiffLine :=
  let oldLines := split oldText in
  let newLines := split newText in
  diff (whileLoop oldLines newLines initialState).

(** ** The component *)

(** What the component returns, by the data the returned element shows:
    the "Invalid diff data" box, the "No differences found" box, the "Error
    generating diff view" box with the error text and the two fallback
    panes, and the diff view with its file name, its [+n -m] header and its
    rows. *)
Inductive Outcome :=
| InvalidInput
| NoDifferences
| ComputationFailed (text : string) (beforePane afterPane : JsValue)
| DiffResult (fileName : JsValue) (additions deletions : nat)
             (records : list DiffLine).

(** [diffLines.some(line => line.type !== 'context')] *)
Definition hasChanges (diffLines : list DiffLine) : bool :=
  existsb (fun line => bool_decide (type line <> context)) diffLines.

(** [diffLines.filter(d => d.type === t).length] *)
Definition countType (t : LineType) (diffLines : list DiffLine) : nat :=
  length (filter (fun d => type d = t) diffLines).

(** [error.message || 'Unknown error occurred'] *)
Definition errorText (error : JsError) : string :=
  if bool_decide (message error = "") then "Unknown error occurred"
  else message error.

(** The error object as a value: truthy, [String(error)] is
    [name: message]. *)
Definition errorValue (error : JsError) : JsValue :=
  JsOther true (Normal (errorName error +:+ ": " +:+ message error)).

(** The [catch] block, after its four [console.error] calls, which only
    write to the console.  The bindings in scope there are the caught
    [error] and the destructured props; [beforeStr] and [afterStr] are
    [const] declarations of the [try] block and are not among them. *)
Definition catchBlock (before after fileName : JsValue) (error : JsError)
  : Completion Outcome :=
  let scope := [("error", errorValue error); ("before", before);
                ("after", after); ("fileName", fileName)] in
  let text := errorText error in
  beforePane ← resolveIdentifier scope "beforeStr";
  afterPane ← resolveIdentifier scope "afterStr";
  mret (ComputationFailed text beforePane afterPane).

(** The [try] block. *)
Definition tryBlock (before after fileName : JsValue) : Completion Outcome :=
  beforeStr ← coerceToString before;
  afterStr ← coerceToString after;
  let diffLines := generateDiff beforeStr afterStr in
  if negb (hasChanges diffLines) then mret NoDifferences
  else mret (DiffResult fileName (countType addition diffLines)
                        (countType deletion diffLines) diffLines).

Definition DiffViewer (before after fileName : JsValue) : Completion Outcome :=
  if negb (toBoolean before) || negb (toBoolean after)
     || negb (toBoolean fileName)
  then mret InvalidInput
  else tryCatch (tryBlock before after fileName)
                (catchBlock before after fileName).

(** ** Vocabulary of the properties *)

(** The records that stand for a line of the old document, and those that
    stand for a line of the new one. *)
Definition inOld (r : DiffLine) : Prop := type r = context \/ type r = deletion.
Definition inNew (r : DiffLine) : Prop := type r = context \/ type r = addition.

#[global] Instance inOld_dec r : Decision (inOld r).
Proof. unfold inOld. apply _. Defined.
#[global] Instance inNew_dec r : Decision (inNew r).
Proof. unfold inNew. apply _. Defined.

(** Rejoining the content of a run of records with newlines; [None] when a
    record has no content. *)
Definition rejoin (records : list DiffLine) : option string :=
  join <$> mapM content records.

(** An input that counts as absent: [null], [undefined] or the empty string. *)
Definition absent (v : JsValue) : Prop :=
  v = JsNull \/ v = JsUndefined \/ v = JsString "".

(** A one-character text holding a newline, to write texts of several lines. *)
Definition nl : string := String newline "".

(** Occurrence and number of occurrences of a character in a text. *)
Fixpoint occurs (c : ascii) (text : string) : bool :=
  match text with
  | EmptyString => false
  | String d rest => bool_decide (d = c) || occurs c rest
  end.

Fixpoint countChar (c : ascii) (text : string) : nat :=
  match text with
  | EmptyString => 0
  | String d rest => (if bool_decide (d = c) then 1 else 0) + countChar c rest
  end.

(** The three ways an iteration extends [diff]: consume the current old
    line as a deletion, the current new line as an addition, or both as one
    context row. *)
Section Pushes.
Variables oldLines newLines : list string.

Definition pushDeletion (st : LoopState) : LoopState :=
  mkState (oldIndex st + 1) (newIndex st)
    (diff st ++ [mkLine deletion (oldLines !! oldIndex st)
                        (Some (oldIndex st + 1)) None]).

Definition pushAddition (st : LoopState) : LoopState :=
  mkState (oldIndex st) (newIndex st + 1)
    (diff st ++ [mkLine addition (newLines !! newIndex st)
                        None (Some (newIndex st + 1))]).

Definition pushContext (st : LoopState) : LoopState :=
  mkState (oldIndex st + 1) (newIndex st + 1)
    (diff st ++ [mkLine context (oldLines !! oldIndex st)
                        (Some (oldIndex st + 1)) (Some (newIndex st + 1))]).

End Pushes.

(** The loop invariant: the cursors stay within the arrays, the rows of
    either side spell the lines consumed on that side, numbered from 1, an
    addition carries no old number and a deletion no new number, and no
    more rows were pushed than lines consumed. *)
Record aligned (oldLines newLines : list string) (st : LoopState) : Prop := {
  old_bound : oldIndex st <= length oldLines;
  new_bound : newIndex st <= length newLines;
  old_content : content <$> filter inOld (diff st)
                = Some <$> take (oldIndex st) oldLines;
  new_content : content <$> filter inNew (diff st)
                = Some <$> take (newIndex st) newLines;
  old_numbers : oldLineNumber <$> filter inOld (diff st)
                = Some <$> seq 1 (oldIndex st);
  new_numbers : newLineNumber <$> filter inNew (diff st)
                = Some <$> seq 1 (newIndex st);
  additions_old : Forall (fun r => type r = addition -> oldLineNumber r = None)
                         (diff st);
  deletions_new : Forall (fun r => type r = deletion -> newLineNumber r = None)
                         (diff st);
  diff_size : length (diff st) <= oldIndex st + newIndex st
}.

(** The per-step decision in the words of the specification of the aligner:
    an exhausted side first, then equal current lines, then the two
    one-line lookaheads in their order, then the substituted pair. *)
Definition specStep (oldLines newLines : list string) (st : LoopState)
  : LoopState :=
  let i := oldIndex st in
  let j := newIndex st in
  let deletionOf a := mkLine deletion (Some a) (Some (i + 1)) None in
  let additionOf b := mkLine addition (Some b) None (Some (j + 1)) in
  match oldLines !! i, newLines !! j with
  | None, None => st
  | None, Some b => mkState i (j + 1) (diff st ++ [additionOf b])
  | Some a, None => mkState (i + 1) j (diff st ++ [deletionOf a])
  | Some a, Some b =>
      if bool_decide (a = b) then
        mkState (i + 1) (j + 1)
          (diff st ++ [mkLine context (Some a) (Some (i + 1)) (Some (j + 1))])
      else if bool_decide (oldLines !! (i + 1) = Some b) then
        mkState (i + 1) j (diff st ++ [deletionOf a])
      else if bool_decide (newLines !! (j + 1) = Some a) then
        mkState i (j + 1) (diff st ++ [additionOf b])
      else
        mkState (i + 1) (j + 1) (diff st ++ [deletionOf a; additionOf b])
  end.

(** Addition rows for [lines], the first of which is line [j + 1] of the new
    document, and deletion rows likewise for the old document. *)
Fixpoint additionsFrom (j : nat) (lines : list string) : list DiffLine :=
  match lines with
  | [] => []
  | l :: rest => mkLine addition (Some l) None (Some (j + 1))
                 :: additionsFrom (j + 1) rest
  end.

Fixpoint deletionsFrom (i : nat) (lines : list string) : list DiffLine :=
  match lines with
  | [] => []
  | l :: rest => mkLine deletion (Some l) (Some (i + 1)) None
                 :: deletionsFrom (i + 1) rest
  end.

(** The number of rows of type [t], counted row by row. *)
Fixpoint countRecords (t : LineType) (records : list DiffLine) : nat :=
  match records with
  | [] => 0
  | r :: rest => (if decide (type r = t) then 1 else 0) + countRecords t rest
  end.

(** Context rows for [lines], the first of which is line [i + 1] of the old
    document and line [j + 1] of the new one. *)
Fixpoint contextFrom (i j : nat) (lines : list string) : list DiffLine :=
  match lines with
  | [] => []
  | l :: rest => mkLine context (Some l) (Some (i + 1)) (Some (j + 1))
                 :: contextFrom (i + 1) (j + 1) rest
  end.

(** A row that tells the truth about the two documents: it has a content,
    and that content is the line of the old document at its old number and
    the line of the new document at its new number, a side it does not
    belong to having no number. *)
Definition rowSound (oldLines newLines : list string) (r : DiffLine) : Prop :=
  is_Some (content r) /\
  match type r with
  | context =>
      (exists i, oldLineNumber r = Some (i + 1) /\ oldLines !! i = content r)
      /\ (exists j, newLineNumber r = Some (j + 1) /\ newLines !! j = content r)
  | deletion =>
      (exists i, oldLineNumber r = Some (i + 1) /\ oldLines !! i = content r)
      /\ newLineNumber r = None
  | addition =>
      oldLineNumber r = None
      /\ (exists j, newLineNumber r = Some (j + 1) /\ newLines !! j = content r)
  end.

(** ** The rows of the diff view *)

(** [getLineStyle], [getLinePrefix] and [getTextColor], on the three types a
    row can have (the [default] branches of the first and of the last are
    for other strings, which no row carries). *)
Definition getLineStyle (t : LineType) : string :=
  match t with
  | addition => "bg-green-50 border-l-4 border-green-500"
  | deletion => "bg-red-50 border-l-4 border-red-500"
  | context => "bg-white border-l-4 border-gray-200"
  end.

Definition getLinePrefix (t : LineType) : string :=
  match t with
  | addition => "+"
  | deletion => "-"
  | context => " "
  end.

Definition getTextColor (t : LineType) : string :=
  match t with
  | addition => "text-green-800"
  | deletion => "text-red-800"
  | context => "text-gray-800"
  end.

(** What a gutter cell is given to show: a number, or the empty string. *)
Inductive Gutter := Blank | Shown (n : nat).

(** [lineNumber || '']: [null] and the falsy number 0 give the empty string. *)
Definition gutter (lineNumber : option nat) : Gutter :=
  match lineNumber with
  | None => Blank
  | Some 0 => Blank
  | Some n => Shown n
  end.

(** The element built for one row by the [diffLines.map] of the view. *)
Record RenderedRow := mkRow {
  rowStyle : string;
  oldGutter : Gutter;
  newGutter : Gutter;
  textColor : string;
  rowPrefix : string;
  shownContent : option string
}.

Definition renderRow (line : DiffLine) : RenderedRow :=
  mkRow (getLineStyle (type line)) (gutter (oldLineNumber line))
        (gutter (newLineNumber line)) (getTextColor (type line))
        (getLinePrefix (type line)) (content line).

(** ** The pages around the differ: login, callback, repositories *)

(** What [axios.get] rejects with and what [new Error(message)] builds, by
    the three things the handlers read from it: [error.code],
    [error.response?.status] and [error.message]. *)
Record RequestError := mkRequestError {
  errCode : option string;
  errStatus : option nat;
  errMessage : string
}.

(** [new Error(message)] *)
Definition newError (text : string) : RequestError :=
  mkRequestError None None text.

(** The settled promise of an [await axios.get(...)], with the part of the
    answer the handler reads. *)
Inductive Response (A : Type) :=
| Resolved (data : A)
| Rejected (error : RequestError).
Arguments Resolved {A} data.
Arguments Rejected {A} error.

(** [text.startsWith(needle)] and [text.includes(needle)] *)
Fixpoint startsWith (needle text : string) : bool :=
  match needle, text with
  | EmptyString, _ => true
  | String _ _, EmptyString => false
  | String a needle', String b text' =>
      bool_decide (a = b) && startsWith needle' text'
  end.

Fixpoint includes (needle text : string) : bool :=
  startsWith needle text
  || match text with
     | EmptyString => false
     | String _ text' => includes needle text'
     end.

(** *** [Login] *)

(** The two pieces of state of the page and the address the window was
    sent to, if any. *)
Record LoginState := mkLogin {
  isLoading : bool;
  errorShown : string;
  href : option JsValue
}.

Section LoginPage.
(** Whether [new URL(v)] returns, rather than throws. *)
Variable parsesAsURL : JsValue -> bool.

(** The [try] block of [handleLogin], given the settled request with the
    value of [data?.authorization_url]: the state it ends in, or what it
    throws. *)
Definition loginTry (response : Response JsValue) (st : LoginState)
  : LoginState + RequestError :=
  match response with
  | Rejected error => inr error
  | Resolved authorization_url =>
      if toBoolean authorization_url then
        if parsesAsURL authorization_url
        then inl (mkLogin (isLoading st) (errorShown st)
                          (Some authorization_url))
        else inr (newError "Invalid authorization URL received")
      else inr (newError "No authorization URL received from server")
  end.

(** The [catch] block of [handleLogin]. *)
Definition loginCatch (error : RequestError) (st : LoginState) : LoginState :=
  let setError text := mkLogin (isLoading st) text (href st) in
  if bool_decide (errCode error = Some "ECONNABORTED") then
    setError "Connection timeout. Please try again."
  else if bool_decide (errStatus error = Some 500) then
    setError "Server error. Please try again later."
  else if bool_decide (errStatus error = Some 404) then
    setError "Authentication service not found."
  else if includes "Network Error" (errMessage error) then
    setError "Network error. Please check your connection."
  else
    setError (if bool_decide (errMessage error = "")
              then "Login failed. Please try again."
              else errMessage error).

Definition handleLogin (response : Response JsValue) (st : LoginState)
  : LoginState :=
  let st1 := mkLogin true "" (href st) in
  let st2 := match loginTry response st1 with
             | inl done => done
             | inr error => loginCatch error st1
             end in
  mkLogin false (errorShown st2) (href st2).

End LoginPage.

(** *** What the pages share *)

(** The browser as the handlers touch it: [localStorage], the route last
    navigated to, and the addresses requested so far, oldest first. *)
Record World := mkWorld {
  localStorage : gmap string string;
  route : string;
  requests : list string
}.

(** [navigate(path)] *)
Definition navigate (path : string) (w : World) : World :=
  mkWorld (localStorage w) path (requests w).

(** [localStorage.setItem(key, value)], [value] being a string already *)
Definition setItem (key value : string) (w : World) : World :=
  mkWorld (<[key := value]> (localStorage w)) (route w) (requests w).

(** [localStorage.removeItem(key)] *)
Definition removeItem (key : string) (w : World) : World :=
  mkWorld (delete key (localStorage w)) (route w) (requests w).

(** [axios.get(url)] being sent *)
Definition request (url : string) (w : World) : World :=
  mkWorld (localStorage w) (route w) (requests w ++ [url]).

(** *** [Callback] and [Repos] *)

Record CallbackState := mkCallback {
  hasfetched : bool;
  loading : bool
}.

Record ReposState (Repo : Type) := mkRepos {
  repos : list Repo;
  reposLoading : bool
}.
Arguments mkRepos {Repo} repos reposLoading.
Arguments repos {Repo} r.
Arguments reposLoading {Repo} r.

Section Pages.
(** [import.meta.env.VITE_BACKEND_URL] *)
Variable backend : string.
(** An entry of the array the repositories request answers with. *)
Variable Repo : Type.

(** [fetchToken] of [Callback], given [params.get('code')] ([None] for
    [null]) and the settled request with the value of
    [res.data?.access_token]. *)
Definition fetchToken (code : option string) (response : Response JsValue)
    (c : CallbackState) (w : World) : CallbackState * World :=
  if hasfetched c then (c, w)
  else
    let c1 := mkCallback true (loading c) in
    match code with
    | None => (c1, w)
    | Some code =>
        if bool_decide (code = "") then (c1, w)
        else
          let w1 := request (backend +:+ "/auth/callback?code=" +:+ code) w in
          let w2 :=
            match response with
            | Rejected _ => navigate "/login" w1
            | Resolved token =>
                if toBoolean token then
                  match coerceToString token with
                  | Normal stored =>
                      navigate "/repos" (setItem "access_token" stored w1)
                  | Throw _ => navigate "/login" w1
                  end
                else navigate "/login" w1
            end in
          (mkCallback true false, w2)
    end.

(** [fetchRepos] of [Repos], given the settled request with [res.data]: an
    array, or [None] for a falsy answer. *)
Definition fetchRepos (response : Response (option (list Repo)))
    (r : ReposState Repo) (w : World) : ReposState Repo * World :=
  match localStorage w !! "access_token" with
  | None => (r, navigate "/login" w)
  | Some token =>
      if bool_decide (token = "") then (r, navigate "/login" w)
      else
        let w1 := request (backend +:+ "/github/repos?token=" +:+ token) w in
        match response with
        | Resolved data => (mkRepos (default [] data) false, w1)
        | Rejected _ => (mkRepos (repos r) false, navigate "/login" w1)
        end
  end.

(** [handleLogout] of [Repos] *)
Definition handleLogout (w : World) : World :=
  navigate "/login" (removeItem "access_token" w).

End Pages.

(** * Properties *)

(** ** The loop *)

Section LoopFacts.
Variables oldLines newLines : list string.

#[local] Abbreviation cond := (loopCond oldLines newLines).
#[local] Abbreviation body := (loopBody oldLines newLines).
#[local] Abbreviation loop := (whileLoop oldLines newLines).
#[local] Abbreviation left_over := (remaining oldLines newLines).

Lemma loopCond_true st :
  cond st = true <->
  oldIndex st < length oldLines \/ newIndex st < length newLines.
Proof.
  unfold loopCond. rewrite orb_true_iff, !bool_decide_eq_true. tauto.
Qed.

Lemma loopCond_false st :
  cond st = false <->
  length oldLines <= oldIndex st /\ length newLines <= newIndex st.
Proof.
  unfold loopCond. rewrite orb_false_iff, !bool_decide_eq_false. lia.
Qed.

Lemma whileLoop_step st :
  loop st = if cond st then loop (body st) else st.
Proof.
  rewrite whileLoop_equation_1.
  destruct (Sumbool.sumbool_of_bool (cond st)) as [H|H].
  - replace (if cond st then loop (body st) else st) with (loop (body st))
      by (rewrite H; reflexivity).
    reflexivity.
  - replace (if cond st then loop (body st) else st) with st
      by (rewrite H; reflexivity).
    reflexivity.
Qed.

Lemma remaining_body st : cond st = true -> left_over (body st) < left_over st.
Proof.
  rewrite loopCond_true. unfold remaining, loopBody.
  repeat case_bool_decide; simpl; lia.
Qed.

(** Hoare-style rule for the loop: a property kept by every iteration
    holds at exit, where the condition is false. *)
Lemma whileLoop_invariant (P : LoopState -> Prop) :
  (forall st, P st -> cond st = true -> P (body st)) ->
  forall st, P st -> P (loop st) /\ cond (loop st) = false.
Proof.
  intros Hstep st.
  remember (left_over st) as n eqn:Hn. revert st Hn.
  induction n as [n IH] using lt_wf_ind. intros st Hn HP.
  rewrite whileLoop_step. destruct (cond st) eqn:Hc.
  - apply (IH (left_over (body st))); auto.
    subst n. apply remaining_body, Hc.
  - split; assumption.
Qed.

Lemma whileFuel_enough fuel st :
  left_over st <= fuel -> whileFuel oldLines newLines fuel st = Some (loop st).
Proof.
  revert st. induction fuel as [|fuel IH]; intros st Hle;
    rewrite whileLoop_step; simpl; destruct (cond st) eqn:Hc; try reflexivity.
  - apply remaining_body in Hc. lia.
  - apply IH. apply remaining_body in Hc. lia.
Qed.

End LoopFacts.

(** ** Splitting and joining *)

Lemma append_cons c (s t : string) : String c s +:+ t = String c (s +:+ t).
Proof. reflexivity. Qed.

Lemma append_empty_r (s : string) : s +:+ "" = s.
Proof.
  induction s as [|c s IH]; [reflexivity | rewrite append_cons, IH; reflexivity].
Qed.

Lemma append_assoc (s1 s2 s3 : string) : (s1 +:+ s2) +:+ s3 = s1 +:+ (s2 +:+ s3).
Proof.
  induction s1 as [|c s1 IH]; [reflexivity | rewrite !append_cons, IH; reflexivity].
Qed.

Lemma splitFrom_nonempty seg text : splitFrom seg text <> [].
Proof.
  revert seg. induction text as [|c rest IH]; intros seg; simpl.
  - discriminate.
  - case_bool_decide; [discriminate | apply IH].
Qed.

Lemma join_cons l rest :
  rest <> [] -> join (l :: rest) = l +:+ String newline (join rest).
Proof. destruct rest; [congruence | reflexivity]. Qed.

Lemma join_splitFrom seg text : join (splitFrom seg text) = seg +:+ text.
Proof.
  revert seg. induction text as [|c rest IH]; intros seg; simpl.
  - symmetry. apply append_empty_r.
  - case_bool_decide as Hc.
    + rewrite join_cons by apply splitFrom_nonempty.
      rewrite IH. subst c. reflexivity.
    + rewrite IH, append_assoc. reflexivity.
Qed.

Lemma join_split text : join (split text) = text.
Proof. apply join_splitFrom. Qed.

Lemma splitFrom_line seg line text :
  occurs newline line = false ->
  splitFrom seg (line +:+ text) = splitFrom (seg +:+ line) text.
Proof.
  revert seg. induction line as [|c line IH]; intros seg Hno.
  - rewrite append_empty_r. reflexivity.
  - rewrite append_cons. simpl. simpl in Hno. apply orb_false_iff in Hno as [Hc Hno].
    rewrite Hc. rewrite IH by assumption. rewrite append_assoc. reflexivity.
Qed.

Lemma splitFrom_newline seg rest :
  splitFrom seg (String newline rest) = seg :: splitFrom "" rest.
Proof. reflexivity. Qed.

Lemma split_join lines :
  lines <> [] -> Forall (fun l => occurs newline l = false) lines ->
  split (join lines) = lines.
Proof.
  unfold split. induction lines as [|l rest IH]; intros Hne Hall; [congruence|].
  apply Forall_cons in Hall as [Hl Hrest].
  destruct rest as [|l' rest'].
  - simpl join. rewrite <- (append_empty_r l) at 1.
    rewrite splitFrom_line by assumption. reflexivity.
  - rewrite join_cons by discriminate.
    rewrite splitFrom_line by assumption. rewrite splitFrom_newline.
    rewrite IH by (try discriminate; assumption). reflexivity.
Qed.

Lemma splitFrom_lines_clean seg text :
  occurs newline seg = false ->
  Forall (fun l => occurs newline l = false) (splitFrom seg text).
Proof.
  revert seg. induction text as [|c rest IH]; intros seg Hseg; simpl.
  - apply Forall_cons; split; [assumption | apply Forall_nil; exact I].
  - case_bool_decide as Hc.
    + apply Forall_cons; split; [assumption | apply IH; reflexivity].
    + apply IH. clear IH. induction seg as [|d seg IHs].
      * simpl. rewrite bool_decide_eq_false_2 by assumption. reflexivity.
      * rewrite append_cons. simpl in *.
        apply orb_false_iff in Hseg as [Hd Hs]. rewrite Hd. apply IHs, Hs.
Qed.

Lemma splitFrom_length seg text :
  length (splitFrom seg text) = S (countChar newline text).
Proof.
  revert seg. induction text as [|c rest IH]; intros seg; simpl; [reflexivity|].
  case_bool_decide; simpl; rewrite IH; reflexivity.
Qed.

(** ** The iterations as pushes *)

Lemma filter_snoc_in {A} (P : A -> Prop) `{!forall x, Decision (P x)}
    (l : list A) (x : A) :
  P x -> filter P (l ++ [x]) = filter P l ++ [x].
Proof.
  intros Hx. rewrite filter_app, filter_cons_True by assumption.
  rewrite filter_nil. reflexivity.
Qed.

Lemma filter_snoc_out {A} (P : A -> Prop) `{!forall x, Decision (P x)}
    (l : list A) (x : A) :
  ~ P x -> filter P (l ++ [x]) = filter P l.
Proof.
  intros Hx. rewrite filter_app, filter_cons_False by assumption.
  rewrite filter_nil. apply app_nil_r.
Qed.

Section PushFacts.
Variables oldLines newLines : list string.

#[local] Abbreviation cond := (loopCond oldLines newLines).
#[local] Abbreviation body := (loopBody oldLines newLines).
#[local] Abbreviation loop := (whileLoop oldLines newLines).
#[local] Abbreviation del := (pushDeletion oldLines).
#[local] Abbreviation add := (pushAddition newLines).
#[local] Abbreviation ctx := (pushContext oldLines).
#[local] Abbreviation good := (aligned oldLines newLines).

(** Which push an iteration performs, with the test that selects it. *)
Lemma loopBody_cases st :
  cond st = true ->
  let i := oldIndex st in
  let j := newIndex st in
  (length oldLines <= i /\ j < length newLines /\ body st = add st)
  \/ (i < length oldLines /\ length newLines <= j /\ body st = del st)
  \/ (i < length oldLines /\ j < length newLines /\
      oldLines !! i = newLines !! j /\ body st = ctx st)
  \/ (i < length oldLines /\ j < length newLines /\
      oldLines !! i <> newLines !! j /\
      oldLines !! (i + 1) = newLines !! j /\ body st = del st)
  \/ (i < length oldLines /\ j < length newLines /\
      oldLines !! i <> newLines !! j /\
      oldLines !! (i + 1) <> newLines !! j /\
      newLines !! (j + 1) = oldLines !! i /\ body st = add st)
  \/ (i < length oldLines /\ j < length newLines /\
      oldLines !! i <> newLines !! j /\
      oldLines !! (i + 1) <> newLines !! j /\
      newLines !! (j + 1) <> oldLines !! i /\ body st = add (del st)).
Proof.
  rewrite loopCond_true. intros Hc i j. subst i j.
  unfold loopBody, pushDeletion, pushAddition, pushContext.
  repeat case_bool_decide; simpl.
  - left. repeat split; [lia | lia].
  - right; left. repeat split; lia.
  - right; right; left. repeat split; [lia | lia | assumption].
  - do 3 right; left. repeat split; try assumption; lia.
  - do 4 right; left. repeat split; try assumption; lia.
  - do 5 right. repeat split; try assumption; try lia.
    rewrite <- app_assoc. reflexivity.
Qed.

Lemma aligned_initial : good initialState.
Proof.
  split; simpl; try reflexivity; try apply Forall_nil; try exact I; lia.
Qed.

Lemma aligned_del st :
  good st -> oldIndex st < length oldLines -> good (del st).
Proof.
  intros [] Hlt.
  destruct (lookup_lt_is_Some_2 _ _ Hlt) as [x Hx].
  assert (Hin : inOld (mkLine deletion (oldLines !! oldIndex st)
                         (Some (oldIndex st + 1)) None)) by (right; reflexivity).
  assert (Hout : ~ inNew (mkLine deletion (oldLines !! oldIndex st)
                         (Some (oldIndex st + 1)) None))
    by (intros [H|H]; discriminate H).
  split; unfold pushDeletion; simpl;
    try rewrite (filter_snoc_in _ _ _ Hin);
    try rewrite (filter_snoc_out _ _ _ Hout); try assumption.
  - lia.
  - rewrite fmap_app, !Nat.add_1_r, (take_S_r _ _ _ Hx), fmap_app.
    simpl. rewrite Hx. congruence.
  - rewrite fmap_app, !Nat.add_1_r, seq_S, fmap_app. simpl. congruence.
  - apply Forall_app; split; [assumption|].
    apply Forall_cons; split; [discriminate | apply Forall_nil; exact I].
  - apply Forall_app; split; [assumption|].
    apply Forall_cons; split; [reflexivity | apply Forall_nil; exact I].
  - rewrite length_app. simpl. lia.
Qed.

Lemma aligned_add st :
  good st -> newIndex st < length newLines -> good (add st).
Proof.
  intros [] Hlt.
  destruct (lookup_lt_is_Some_2 _ _ Hlt) as [x Hx].
  assert (Hin : inNew (mkLine addition (newLines !! newIndex st)
                         None (Some (newIndex st + 1)))) by (right; reflexivity).
  assert (Hout : ~ inOld (mkLine addition (newLines !! newIndex st)
                         None (Some (newIndex st + 1))))
    by (intros [H|H]; discriminate H).
  split; unfold pushAddition; simpl;
    try rewrite (filter_snoc_in _ _ _ Hin);
    try rewrite (filter_snoc_out _ _ _ Hout); try assumption.
  - lia.
  - rewrite fmap_app, !Nat.add_1_r, (take_S_r _ _ _ Hx), fmap_app.
    simpl. rewrite Hx. congruence.
  - rewrite fmap_app, !Nat.add_1_r, seq_S, fmap_app. simpl. congruence.
  - apply Forall_app; split; [assumption|].
    apply Forall_cons; split; [reflexivity | apply Forall_nil; exact I].
  - apply Forall_app; split; [assumption|].
    apply Forall_cons; split; [discriminate | apply Forall_nil; exact I].
  - rewrite length_app. simpl. lia.
Qed.

Lemma aligned_ctx st :
  good st -> oldIndex st < length oldLines -> newIndex st < length newLines ->
  oldLines !! oldIndex st = newLines !! newIndex st -> good (ctx st).
Proof.
  intros [] Hi Hj Heq.
  destruct (lookup_lt_is_Some_2 _ _ Hi) as [x Hx].
  assert (Hy : newLines !! newIndex st = Some x) by congruence.
  assert (HinO : inOld (mkLine context (oldLines !! oldIndex st)
                  (Some (oldIndex st + 1)) (Some (newIndex st + 1))))
    by (left; reflexivity).
  assert (HinN : inNew (mkLine context (oldLines !! oldIndex st)
                  (Some (oldIndex st + 1)) (Some (newIndex st + 1))))
    by (left; reflexivity).
  split; unfold pushContext; simpl;
    try rewrite (filter_snoc_in _ _ _ HinO);
    try rewrite (filter_snoc_in _ _ _ HinN).
  - lia.
  - lia.
  - rewrite fmap_app, !Nat.add_1_r, (take_S_r _ _ _ Hx), fmap_app.
    simpl. rewrite Hx. congruence.
  - rewrite fmap_app, !Nat.add_1_r, (take_S_r _ _ _ Hy), fmap_app.
    simpl. rewrite Hx. congruence.
  - rewrite fmap_app, !Nat.add_1_r, seq_S, fmap_app. simpl. congruence.
  - rewrite fmap_app, !Nat.add_1_r, seq_S, fmap_app. simpl. congruence.
  - apply Forall_app; split; [assumption|].
    apply Forall_cons; split; [discriminate | apply Forall_nil; exact I].
  - apply Forall_app; split; [assumption|].
    apply Forall_cons; split; [discriminate | apply Forall_nil; exact I].
  - rewrite length_app. simpl. lia.
Qed.

Lemma aligned_body st : good st -> cond st = true -> good (body st).
Proof.
  intros Hgood Hc.
  destruct (loopBody_cases st Hc)
    as [(?&?&->)|[(?&?&->)|[(?&?&?&->)|[(?&?&?&?&->)|[(?&?&?&?&?&->)|(?&?&?&?&?&->)]]]]].
  - apply aligned_add; assumption.
  - apply aligned_del; assumption.
  - apply aligned_ctx; assumption.
  - apply aligned_del; assumption.
  - apply aligned_add; assumption.
  - apply aligned_add; [apply aligned_del; assumption | assumption].
Qed.

(** At exit both cursors sit exactly at the end of their arrays. *)
Lemma aligned_exit :
  let final := loop initialState in
  good final /\ oldIndex final = length oldLines
  /\ newIndex final = length newLines.
Proof.
  destruct (whileLoop_invariant oldLines newLines good aligned_body
              initialState aligned_initial) as [Hgood Hexit].
  apply loopCond_false in Hexit. destruct Hgood.
  simpl. repeat split; try assumption; lia.
Qed.

End PushFacts.

(** ** Reconstruction of both documents *)

Lemma mapM_of_fmap {A B} (f : A -> option B) (l : list A) (k : list B) :
  f <$> l = Some <$> k -> mapM f l = Some k.
Proof.
  intros H. apply mapM_Some_2. revert k H.
  induction l as [|x l IH]; intros [|y k] H; try discriminate H.
  - apply Forall2_nil. exact I.
  - injection H as Hx Hl. apply Forall2_cons. split; [assumption | apply IH, Hl].
Qed.

Lemma rejoin_lines (records : list DiffLine) (lines : list string) :
  content <$> records = Some <$> lines -> rejoin records = Some (join lines).
Proof.
  intros H. unfold rejoin. rewrite (mapM_of_fmap _ _ _ H). reflexivity.
Qed.

(** C1. For all texts [before] and [after], the content of the context and
    deletion rows of [generateDiff before after], taken in order and
    rejoined with newlines, is [before]; the content of the context and
    addition rows, rejoined the same way, is [after]. *)
Theorem generateDiff_reconstruction (before after : string) :
  rejoin (filter inOld (generateDiff before after)) = Some before
  /\ rejoin (filter inNew (generateDiff before after)) = Some after.
Proof.
  unfold generateDiff.
  destruct (aligned_exit (split before) (split after)) as ([] & Hi & Hj).
  split.
  - rewrite (rejoin_lines _ (split before)), join_split; [reflexivity|].
    rewrite old_content0, Hi, take_ge by lia. reflexivity.
  - rewrite (rejoin_lines _ (split after)), join_split; [reflexivity|].
    rewrite new_content0, Hj, take_ge by lia. reflexivity.
Qed.

(** ** The line splitter *)

(** C9. Splitting cuts a text at its newline characters and nowhere else and
    changes no character: the empty text gives one empty line; joining the
    lines with newlines gives the text back; no line holds a newline and
    there is one line more than there are newlines; any non-empty run of
    newline-free lines is what splitting their join returns; and a carriage
    return before a newline stays at the end of its line. *)
Theorem split_newline_sole_delimiter :
  split "" = [""]
  /\ (forall text, join (split text) = text)
  /\ (forall text, Forall (fun l => occurs newline l = false) (split text))
  /\ (forall text, length (split text) = S (countChar newline text))
  /\ (forall lines, lines <> [] ->
        Forall (fun l => occurs newline l = false) lines ->
        split (join lines) = lines)
  /\ (forall line rest, occurs newline line = false ->
        split (line +:+ String carriageReturn (String newline rest))
        = (line +:+ String carriageReturn "") :: split rest).
Proof.
  split; [reflexivity|].
  split; [apply join_split|].
  split; [intros text; apply splitFrom_lines_clean; reflexivity|].
  split; [intros text; apply splitFrom_length|].
  split; [apply split_join|].
  intros line rest Hline. unfold split.
  rewrite splitFrom_line by assumption.
  reflexivity.
Qed.

Lemma split_newline_sole_delimiter_witness :
  split (join ["a" +:+ String carriageReturn ""; "b"; ""])
  = ["a" +:+ String carriageReturn ""; "b"; ""]
  /\ split ("a" +:+ String carriageReturn (String newline "b"))
     = ("a" +:+ String carriageReturn "") :: split "b".
Proof.
  split.
  - apply (proj1 (proj2 (proj2 (proj2 (proj2 split_newline_sole_delimiter))))).
    + discriminate.
    + repeat (apply Forall_cons; split; [reflexivity|]). apply Forall_nil. exact I.
  - apply (proj2 (proj2 (proj2 (proj2 (proj2 split_newline_sole_delimiter))))).
    reflexivity.
Defined.


(** ** Line numbering *)

Lemma Forall_filter_type (t : LineType) (Q : DiffLine -> Prop)
    (records : list DiffLine) :
  Forall (fun r => type r = t -> Q r) records ->
  Forall Q (filter (fun r => type r = t) records).
Proof.
  rewrite !Forall_forall. intros H r Hr.
  apply list_elem_of_filter in Hr as [Ht Hin]. apply H; assumption.
Qed.

(** C5. In the rows the aligner produces for [oldLines] and [newLines], the
    old line numbers of the context and deletion rows, in output order, are
    1, 2, ..., [length oldLines]; the new line numbers of the context and
    addition rows are 1, 2, ..., [length newLines]; an addition row has no
    old line number and a deletion row has no new line number. *)
Theorem line_numbers_contiguous (oldLines newLines : list string) :
  let records := diff (whileLoop oldLines newLines initialState) in
  oldLineNumber <$> filter inOld records = Some <$> seq 1 (length oldLines)
  /\ newLineNumber <$> filter inNew records = Some <$> seq 1 (length newLines)
  /\ Forall (fun r => oldLineNumber r = None)
            (filter (fun r => type r = addition) records)
  /\ Forall (fun r => newLineNumber r = None)
            (filter (fun r => type r = deletion) records).
Proof.
  destruct (aligned_exit oldLines newLines) as ([] & Hi & Hj). simpl.
  repeat split.
  - rewrite old_numbers0, Hi. reflexivity.
  - rewrite new_numbers0, Hj. reflexivity.
  - apply Forall_filter_type. assumption.
  - apply Forall_filter_type. assumption.
Qed.

(** ** Termination *)

Lemma loopBody_advances (oldLines newLines : list string) (st : LoopState) :
  let st' := loopBody oldLines newLines st in
  (oldIndex st' = oldIndex st + 1 /\ newIndex st' = newIndex st)
  \/ (oldIndex st' = oldIndex st /\ newIndex st' = newIndex st + 1)
  \/ (oldIndex st' = oldIndex st + 1 /\ newIndex st' = newIndex st + 1).
Proof.
  unfold loopBody. repeat case_bool_decide; simpl; auto.
Qed.

(** C10. Every iteration of the alignment loop moves the old cursor, the new
    cursor, or both, forward by one; started with both cursors at 0 the loop
    ends, with its condition false, within [length oldLines + length
    newLines] iterations, and has pushed at most that many rows. *)
Theorem alignment_loop_terminates (oldLines newLines : list string) :
  let bound := length oldLines + length newLines in
  let final := whileLoop oldLines newLines initialState in
  (forall st, let st' := loopBody oldLines newLines st in
     (oldIndex st' = oldIndex st + 1 /\ newIndex st' = newIndex st)
     \/ (oldIndex st' = oldIndex st /\ newIndex st' = newIndex st + 1)
     \/ (oldIndex st' = oldIndex st + 1 /\ newIndex st' = newIndex st + 1))
  /\ whileFuel oldLines newLines bound initialState = Some final
  /\ loopCond oldLines newLines final = false
  /\ length (diff final) <= bound.
Proof.
  simpl. split; [apply loopBody_advances|].
  split.
  - apply whileFuel_enough. unfold remaining. simpl. lia.
  - destruct (aligned_exit oldLines newLines) as ([] & Hi & Hj).
    split; [apply loopCond_false|]; lia.
Qed.

(** ** The lookahead policy *)

Section Policy.
Variables oldLines newLines : list string.

#[local] Abbreviation cond := (loopCond oldLines newLines).
#[local] Abbreviation body := (loopBody oldLines newLines).
#[local] Abbreviation loop := (whileLoop oldLines newLines).

Lemma loopBody_specStep st :
  cond st = true -> body st = specStep oldLines newLines st.
Proof.
  intros Hc. apply loopCond_true in Hc.
  unfold loopBody, specStep.
  destruct (oldLines !! oldIndex st) as [a|] eqn:Ha;
    destruct (newLines !! newIndex st) as [b|] eqn:Hb.
  - apply lookup_lt_Some in Ha, Hb.
    rewrite !bool_decide_eq_false_2 by lia.
    repeat case_bool_decide; try congruence; reflexivity.
  - apply lookup_lt_Some in Ha. apply lookup_ge_None in Hb.
    rewrite bool_decide_eq_false_2, bool_decide_eq_true_2 by lia.
    reflexivity.
  - apply lookup_ge_None in Ha.
    rewrite bool_decide_eq_true_2 by lia. reflexivity.
  - apply lookup_ge_None in Ha, Hb. lia.
Qed.

(** With the old side exhausted the rest of the run only adds. *)
Lemma run_old_exhausted st :
  length oldLines <= oldIndex st ->
  diff (loop st)
  = diff st ++ additionsFrom (newIndex st) (drop (newIndex st) newLines).
Proof.
  remember (length newLines - newIndex st) as n eqn:Hn. revert st Hn.
  induction n as [|n IH]; intros st Hn Hold; rewrite whileLoop_step.
  - replace (cond st) with false
      by (symmetry; apply loopCond_false; lia).
    rewrite drop_ge by lia. simpl. rewrite app_nil_r. reflexivity.
  - replace (cond st) with true
      by (symmetry; apply loopCond_true; lia).
    destruct (lookup_lt_is_Some_2 newLines (newIndex st)) as [b Hb]; [lia|].
    assert (Hbody : body st = pushAddition newLines st).
    { unfold loopBody. rewrite bool_decide_eq_true_2 by lia. reflexivity. }
    rewrite Hbody, IH; unfold pushAddition; simpl; try lia.
    rewrite (drop_S _ _ _ Hb), Hb, <- app_assoc. simpl.
    rewrite !Nat.add_1_r. reflexivity.
Qed.

(** With the new side exhausted the rest of the run only deletes. *)
Lemma run_new_exhausted st :
  length newLines <= newIndex st ->
  diff (loop st)
  = diff st ++ deletionsFrom (oldIndex st) (drop (oldIndex st) oldLines).
Proof.
  remember (length oldLines - oldIndex st) as n eqn:Hn. revert st Hn.
  induction n as [|n IH]; intros st Hn Hnew; rewrite whileLoop_step.
  - replace (cond st) with false
      by (symmetry; apply loopCond_false; lia).
    rewrite drop_ge by lia. simpl. rewrite app_nil_r. reflexivity.
  - replace (cond st) with true
      by (symmetry; apply loopCond_true; lia).
    destruct (lookup_lt_is_Some_2 oldLines (oldIndex st)) as [a Ha]; [lia|].
    assert (Hbody : body st = pushDeletion oldLines st).
    { unfold loopBody.
      rewrite bool_decide_eq_false_2, bool_decide_eq_true_2 by lia.
      reflexivity. }
    rewrite Hbody, IH; unfold pushDeletion; simpl; try lia.
    rewrite (drop_S _ _ _ Ha), Ha, <- app_assoc. simpl.
    rewrite !Nat.add_1_r. reflexivity.
Qed.

End Policy.

(** C2. While the loop runs, an iteration does what the specification's
    priority order says ([specStep]): with the old side exhausted it adds
    the current new line; else with the new side exhausted it deletes the
    current old line; else equal current lines give one context row and move
    both cursors; else, if the next old line equals the current new line,
    the current old line is deleted and only the old cursor moves; else, if
    the next new line equals the current old line, the current new line is
    added and only the new cursor moves; else a deletion of the current old
    line is followed at once by an addition of the current new line and both
    cursors move.  Once a side is exhausted, the rest of the run emits the
    remaining lines of the other side, as additions or as deletions. *)
Theorem lookahead_priority_order (oldLines newLines : list string)
    (st : LoopState) :
  loopCond oldLines newLines st = true ->
  loopBody oldLines newLines st = specStep oldLines newLines st
  /\ (length oldLines <= oldIndex st ->
      diff (whileLoop oldLines newLines st)
      = diff st ++ additionsFrom (newIndex st) (drop (newIndex st) newLines))
  /\ (length newLines <= newIndex st ->
      diff (whileLoop oldLines newLines st)
      = diff st ++ deletionsFrom (oldIndex st) (drop (oldIndex st) oldLines)).
Proof.
  intros Hc. split; [apply loopBody_specStep, Hc|].
  split; [apply run_old_exhausted | apply run_new_exhausted].
Qed.

Lemma lookahead_priority_order_witness :
  let oldLines := ["a"; "b"; "c"] in
  let newLines := ["a"; "z"; "c"] in
  let st := mkState 1 1 [mkLine context (Some "a") (Some 1) (Some 1)] in
  loopCond oldLines newLines st = true
  /\ loopBody oldLines newLines st
     = mkState 2 2 [mkLine context (Some "a") (Some 1) (Some 1);
                    mkLine deletion (Some "b") (Some 2) None;
                    mkLine addition (Some "z") None (Some 2)].
Proof.
  intros oldLines newLines st. split; [reflexivity|].
  rewrite (proj1 (lookahead_priority_order oldLines newLines st eq_refl)).
  reflexivity.
Defined.

(** The three worked cases of the specification. *)
Example pure_insertion :
  generateDiff ("a" +:+ nl +:+ "b") ("a" +:+ nl +:+ "x" +:+ nl +:+ "b")
  = [mkLine context (Some "a") (Some 1) (Some 1);
     mkLine addition (Some "x") None (Some 2);
     mkLine context (Some "b") (Some 2) (Some 3)].
Proof. reflexivity. Qed.

Example pure_deletion :
  generateDiff ("a" +:+ nl +:+ "x" +:+ nl +:+ "b") ("a" +:+ nl +:+ "b")
  = [mkLine context (Some "a") (Some 1) (Some 1);
     mkLine deletion (Some "x") (Some 2) None;
     mkLine context (Some "b") (Some 3) (Some 2)].
Proof. reflexivity. Qed.

Example substitution :
  generateDiff ("a" +:+ nl +:+ "b" +:+ nl +:+ "c")
               ("a" +:+ nl +:+ "z" +:+ nl +:+ "c")
  = [mkLine context (Some "a") (Some 1) (Some 1);
     mkLine deletion (Some "b") (Some 2) None;
     mkLine addition (Some "z") None (Some 2);
     mkLine context (Some "c") (Some 3) (Some 3)].
Proof. reflexivity. Qed.

(** ** The summary counts *)

Lemma countType_countRecords t records :
  countType t records = countRecords t records.
Proof.
  unfold countType. induction records as [|r rest IH]; [reflexivity|].
  rewrite filter_cons. simpl. destruct (decide (type r = t)); simpl; lia.
Qed.

Lemma countRecords_app t (l1 l2 : list DiffLine) :
  countRecords t (l1 ++ l2) = countRecords t l1 + countRecords t l2.
Proof. induction l1 as [|r l1 IH]; simpl; [reflexivity | rewrite IH; lia]. Qed.

Lemma countRecords_sides (records : list DiffLine) :
  countRecords context records + countRecords deletion records
  = length (filter inOld records)
  /\ countRecords context records + countRecords addition records
     = length (filter inNew records).
Proof.
  induction records as [|r rest [IHo IHn]]; [split; reflexivity|].
  destruct r as [[] c o n]; rewrite !filter_cons; simpl;
    repeat case_decide; unfold inOld, inNew in *; simpl in *;
    try (exfalso; intuition congruence); split; simpl; lia.
Qed.

(** The [catch] block never returns: it throws on its first free identifier. *)
Lemma catchBlock_throws before after fileName error :
  catchBlock before after fileName error
  = Throw (mkError "ReferenceError" "beforeStr is not defined").
Proof. reflexivity. Qed.

(** A returned diff view comes from the [try] block running to its end. *)
Lemma DiffViewer_DiffResult before after fileName name adds dels records :
  DiffViewer before after fileName = Normal (DiffResult name adds dels records) ->
  exists beforeStr afterStr,
    coerceToString before = Normal beforeStr
    /\ coerceToString after = Normal afterStr
    /\ records = generateDiff beforeStr afterStr
    /\ adds = countType addition records
    /\ dels = countType deletion records.
Proof.
  unfold DiffViewer. destruct (_ || _); [discriminate|].
  unfold tryBlock, tryCatch.
  destruct (coerceToString before) as [b|e]; simpl;
    [|rewrite catchBlock_throws; discriminate].
  destruct (coerceToString after) as [a|e]; simpl;
    [|rewrite catchBlock_throws; discriminate].
  destruct (hasChanges _); simpl; [|discriminate].
  intros [= <- <- <- <-]. exists b, a. repeat split; reflexivity.
Qed.

Lemma substitution_counts (oldLines newLines : list string) st a b :
  oldLines !! oldIndex st = Some a -> newLines !! newIndex st = Some b ->
  a <> b ->
  oldLines !! (oldIndex st + 1) <> Some b ->
  newLines !! (newIndex st + 1) <> Some a ->
  countRecords addition (diff (loopBody oldLines newLines st))
  = countRecords addition (diff st) + 1
  /\ countRecords deletion (diff (loopBody oldLines newLines st))
     = countRecords deletion (diff st) + 1.
Proof.
  intros Ha Hb Hab Hnext_old Hnext_new.
  rewrite loopBody_specStep
    by (apply loopCond_true; left; eapply lookup_lt_Some, Ha).
  unfold specStep. rewrite Ha, Hb.
  rewrite !bool_decide_eq_false_2 by assumption.
  simpl. rewrite !countRecords_app. simpl. split; lia.
Qed.

Lemma generateDiff_side_lengths (beforeStr afterStr : string) :
  length (filter inOld (generateDiff beforeStr afterStr))
  = length (split beforeStr)
  /\ length (filter inNew (generateDiff beforeStr afterStr))
     = length (split afterStr).
Proof.
  unfold generateDiff.
  destruct (aligned_exit (split beforeStr) (split afterStr)) as ([] & Hi & Hj).
  apply (f_equal length) in old_numbers0, new_numbers0.
  rewrite !length_fmap, length_seq in old_numbers0, new_numbers0.
  split; congruence.
Qed.

(** C6. When the component returns a diff view, the additions count it shows
    is the number of addition rows of the view and the deletions count the
    number of deletion rows; the rows are those of [generateDiff] on the
    two coerced texts, so each count plus the number of context rows is the
    number of lines of its document; and an iteration that substitutes a
    line raises each of the two counts by exactly one. *)
Theorem summary_counts (before after fileName name : JsValue)
    (adds dels : nat) (records : list DiffLine) :
  DiffViewer before after fileName = Normal (DiffResult name adds dels records) ->
  adds = countRecords addition records
  /\ dels = countRecords deletion records
  /\ (exists beforeStr afterStr,
        coerceToString before = Normal beforeStr
        /\ coerceToString after = Normal afterStr
        /\ records = generateDiff beforeStr afterStr
        /\ countRecords context records + dels = length (split beforeStr)
        /\ countRecords context records + adds = length (split afterStr))
  /\ (forall (oldLines newLines : list string) st a b,
        oldLines !! oldIndex st = Some a -> newLines !! newIndex st = Some b ->
        a <> b ->
        oldLines !! (oldIndex st + 1) <> Some b ->
        newLines !! (newIndex st + 1) <> Some a ->
        countRecords addition (diff (loopBody oldLines newLines st))
        = countRecords addition (diff st) + 1
        /\ countRecords deletion (diff (loopBody oldLines newLines st))
           = countRecords deletion (diff st) + 1).
Proof.
  intros H.
  destruct (DiffViewer_DiffResult _ _ _ _ _ _ _ H)
    as (b & a & Hb & Ha & Hrec & Hadds & Hdels).
  rewrite countType_countRecords in Hadds, Hdels.
  repeat split; try assumption.
  - exists b, a. repeat split; try assumption.
    + rewrite Hdels, (proj1 (countRecords_sides records)), Hrec.
      apply generateDiff_side_lengths.
    + rewrite Hadds, (proj2 (countRecords_sides records)), Hrec.
      apply generateDiff_side_lengths.
  - eapply substitution_counts; eassumption.
  - eapply substitution_counts; eassumption.
Qed.

Lemma summary_counts_witness :
  exists records,
    DiffViewer (JsString ("a" +:+ nl +:+ "b" +:+ nl +:+ "c"))
               (JsString ("a" +:+ nl +:+ "z" +:+ nl +:+ "c")) (JsString "f")
    = Normal (DiffResult (JsString "f") 1 1 records)
    /\ 1 = countRecords addition records
    /\ 1 = countRecords deletion records.
Proof.
  pose (records := generateDiff ("a" +:+ nl +:+ "b" +:+ nl +:+ "c")
                               ("a" +:+ nl +:+ "z" +:+ nl +:+ "c")).
  assert (H : DiffViewer (JsString ("a" +:+ nl +:+ "b" +:+ nl +:+ "c"))
                (JsString ("a" +:+ nl +:+ "z" +:+ nl +:+ "c")) (JsString "f")
              = Normal (DiffResult (JsString "f") 1 1 records))
    by (vm_compute; reflexivity).
  exists records. split; [exact H|].
  destruct (summary_counts _ _ _ _ _ _ _ H) as (Ha & Hd & _).
  split; assumption.
Defined.

(** ** The terminal outcomes of the component *)

Lemma hasChanges_app (l1 l2 : list DiffLine) :
  hasChanges (l1 ++ l2) = hasChanges l1 || hasChanges l2.
Proof. apply existsb_app. Qed.

(** A document aligned with itself gives context rows only. *)
Lemma identical_lines_no_changes (lines : list string) :
  hasChanges (diff (whileLoop lines lines initialState)) = false.
Proof.
  pose (P := fun st => oldIndex st = newIndex st /\ hasChanges (diff st) = false).
  assert (Hstep : forall st, P st -> loopCond lines lines st = true ->
                             P (loopBody lines lines st)).
  { intros st [Hij Hno] Hc.
    destruct (loopBody_cases lines lines st Hc)
      as [(?&?&_)|[(?&?&_)|[(?&?&?&->)|[(?&?&?&_)|[(?&?&?&_)|(?&?&?&_)]]]]];
      try lia; try congruence.
    split; simpl; [lia|].
    rewrite hasChanges_app, Hno. reflexivity. }
  destruct (whileLoop_invariant lines lines P Hstep initialState) as [[_ H] _].
  - split; reflexivity.
  - exact H.
Qed.

Lemma absent_falsy (v : JsValue) : absent v -> toBoolean v = false.
Proof. intros [-> | [-> | ->]]; reflexivity. Qed.

(** C3 as the specification states it fails: the empty string is falsy, so
    two empty texts are stopped by the guard on missing parameters. *)
Lemma empty_inputs_not_NoDifferences :
  DiffViewer (JsString "") (JsString "") (JsString "f") <> Normal NoDifferences.
Proof. discriminate. Qed.

(** C3, amended.  With [before] and [after] both the empty string the
    component returns the invalid-input outcome, whatever the name; the
    aligner on two empty texts produces the single context row of the empty
    line, which holds no change. *)
Theorem empty_inputs_invalid :
  (forall fileName,
     DiffViewer (JsString "") (JsString "") fileName = Normal InvalidInput)
  /\ generateDiff "" "" = [mkLine context (Some "") (Some 1) (Some 1)]
  /\ hasChanges (generateDiff "" "") = false.
Proof. repeat split. Qed.

(** C4 as the specification states it fails at the empty text. *)
Lemma identity_fails_on_empty_text :
  ~ (forall x : string,
       DiffViewer (JsString x) (JsString x) (JsString "f")
       = Normal NoDifferences).
Proof. intros H. specialize (H ""). discriminate H. Qed.

(** C4, amended.  For every non-empty text [x] and every name that is not
    falsy, the component called with [before = x] and [after = x] returns
    the no-differences outcome. *)
Theorem identity_no_differences (x : string) (fileName : JsValue) :
  x <> "" -> toBoolean fileName = true ->
  DiffViewer (JsString x) (JsString x) fileName = Normal NoDifferences.
Proof.
  intros Hx Hname. unfold DiffViewer. simpl toBoolean.
  rewrite bool_decide_eq_false_2, Hname by assumption. simpl.
  unfold tryBlock, generateDiff. simpl.
  rewrite identical_lines_no_changes. reflexivity.
Qed.

Lemma identity_no_differences_witness :
  DiffViewer (JsString ("a" +:+ nl +:+ "b")) (JsString ("a" +:+ nl +:+ "b"))
             (JsString "f")
  = Normal NoDifferences.
Proof. apply identity_no_differences; [discriminate | reflexivity]. Defined.

(** C7. If [before], [after] or the name is absent ([null], [undefined] or
    the empty string) the component returns the invalid-input outcome: it
    returns, it does not throw, and it does so whatever the other inputs
    are, also when coercing one of them to a string would throw, the check
    coming before any coercion, splitting or alignment. *)
Theorem absent_input_invalid (before after fileName : JsValue) :
  absent before \/ absent after \/ absent fileName ->
  DiffViewer before after fileName = Normal InvalidInput.
Proof.
  intros H. unfold DiffViewer.
  destruct H as [H | [H | H]]; apply absent_falsy in H; rewrite H; simpl;
    rewrite ?orb_true_r; reflexivity.
Qed.

Lemma absent_input_invalid_witness :
  DiffViewer JsNull (JsString "x") (JsString "f") = Normal InvalidInput
  /\ DiffViewer (JsOther true (Throw (mkError "TypeError" "boom")))
                JsUndefined (JsString "f") = Normal InvalidInput.
Proof.
  split; apply absent_input_invalid.
  - left. left. reflexivity.
  - right. left. right. left. reflexivity.
Defined.

(** C8, on the code.  When [String(before)] throws, the [catch] block is
    entered and throws in turn, on the identifier [beforeStr] that is not in
    scope there: the component throws a [ReferenceError] to its caller.  No
    input makes the component return the computation-failed outcome. *)
Theorem coercion_failure_escapes :
  DiffViewer
    (JsOther true
       (Throw (mkError "TypeError" "Cannot convert object to primitive value")))
    (JsString "x") (JsString "f")
  = Throw (mkError "ReferenceError" "beforeStr is not defined")
  /\ (forall before after fileName text beforePane afterPane,
        DiffViewer before after fileName
        <> Normal (ComputationFailed text beforePane afterPane)).
Proof.
  split; [reflexivity|].
  intros before after fileName text beforePane afterPane.
  unfold DiffViewer. destruct (_ || _); [discriminate|].
  unfold tryBlock, tryCatch.
  destruct (coerceToString before) as [b|e]; simpl;
    [|rewrite catchBlock_throws; discriminate].
  destruct (coerceToString after) as [a|e]; simpl;
    [|rewrite catchBlock_throws; discriminate].
  destruct (hasChanges _); simpl; discriminate.
Qed.

(** * Further properties of the differ *)

(** ** Every row is sound *)

Section RowFacts.
Variables oldLines newLines : list string.

#[local] Abbreviation cond := (loopCond oldLines newLines).
#[local] Abbreviation body := (loopBody oldLines newLines).
#[local] Abbreviation loop := (whileLoop oldLines newLines).
#[local] Abbreviation sound := (rowSound oldLines newLines).

Lemma rowSound_del st :
  oldIndex st < length oldLines -> Forall sound (diff st) ->
  Forall sound (diff (pushDeletion oldLines st)).
Proof.
  intros Hi Hall. apply Forall_app; split; [assumption|].
  apply Forall_cons; split; [|apply Forall_nil; exact I].
  split; simpl; [apply lookup_lt_is_Some_2, Hi|].
  split; [exists (oldIndex st); split; reflexivity | reflexivity].
Qed.

Lemma rowSound_add st :
  newIndex st < length newLines -> Forall sound (diff st) ->
  Forall sound (diff (pushAddition newLines st)).
Proof.
  intros Hj Hall. apply Forall_app; split; [assumption|].
  apply Forall_cons; split; [|apply Forall_nil; exact I].
  split; simpl; [apply lookup_lt_is_Some_2, Hj|].
  split; [reflexivity | exists (newIndex st); split; reflexivity].
Qed.

Lemma rowSound_ctx st :
  oldIndex st < length oldLines ->
  oldLines !! oldIndex st = newLines !! newIndex st ->
  Forall sound (diff st) -> Forall sound (diff (pushContext oldLines st)).
Proof.
  intros Hi Heq Hall. apply Forall_app; split; [assumption|].
  apply Forall_cons; split; [|apply Forall_nil; exact I].
  split; simpl; [apply lookup_lt_is_Some_2, Hi|].
  split; [exists (oldIndex st) | exists (newIndex st)]; split; congruence.
Qed.

Lemma rowSound_body st :
  Forall sound (diff st) -> cond st = true -> Forall sound (diff (body st)).
Proof.
  intros Hall Hc.
  destruct (loopBody_cases oldLines newLines st Hc)
    as [(?&?&->)|[(?&?&->)|[(?&?&?&->)|[(?&?&?&?&->)|[(?&?&?&?&?&->)|(?&?&?&?&?&->)]]]]].
  - apply rowSound_add; assumption.
  - apply rowSound_del; assumption.
  - apply rowSound_ctx; assumption.
  - apply rowSound_del; assumption.
  - apply rowSound_add; assumption.
  - apply rowSound_add; [assumption | apply rowSound_del; assumption].
Qed.

Lemma rowSound_loop : Forall sound (diff (loop initialState)).
Proof.
  apply (whileLoop_invariant oldLines newLines
           (fun st => Forall sound (diff st)) rowSound_body initialState).
  apply Forall_nil. exact I.
Qed.

(** X1. Every row the aligner produces has a content, and that content is
    the line found at the row's line number in the document, or in both
    documents for a context row. *)
Theorem rows_are_sound :
  Forall (rowSound oldLines newLines) (diff (loop initialState)).
Proof. exact rowSound_loop. Qed.

End RowFacts.

(** ** When the component reports no differences *)

Lemma generateDiff_sides (beforeStr afterStr : string) :
  content <$> filter inOld (generateDiff beforeStr afterStr)
  = Some <$> split beforeStr
  /\ content <$> filter inNew (generateDiff beforeStr afterStr)
     = Some <$> split afterStr.
Proof.
  unfold generateDiff.
  destruct (aligned_exit (split beforeStr) (split afterStr)) as ([] & Hi & Hj).
  split.
  - rewrite old_content0, Hi, take_ge by lia. reflexivity.
  - rewrite new_content0, Hj, take_ge by lia. reflexivity.
Qed.

Lemma no_changes_all_context (records : list DiffLine) :
  hasChanges records = false ->
  filter inOld records = records /\ filter inNew records = records.
Proof.
  induction records as [|r rest IH]; intros H; [split; reflexivity|].
  simpl in H. apply orb_false_iff in H as [Hr Hrest].
  apply bool_decide_eq_false in Hr.
  assert (Hctx : type r = context)
    by (destruct (decide (type r = context)); [assumption | contradiction]).
  destruct (IH Hrest) as [IHo IHn].
  rewrite !filter_cons_True by (left; assumption).
  rewrite IHo, IHn. split; reflexivity.
Qed.

Lemma some_fmap_inj {A} (l k : list A) : Some <$> l = Some <$> k -> l = k.
Proof.
  revert k. induction l as [|x l IH]; intros [|y k] H; try discriminate H.
  - reflexivity.
  - injection H as -> Hl. rewrite (IH _ Hl). reflexivity.
Qed.

Lemma hasChanges_iff_different (beforeStr afterStr : string) :
  hasChanges (generateDiff beforeStr afterStr) = false <-> beforeStr = afterStr.
Proof.
  split.
  - intros H. destruct (no_changes_all_context _ H) as [Ho Hn].
    destruct (generateDiff_sides beforeStr afterStr) as [Hb Ha].
    rewrite Ho in Hb. rewrite Hn in Ha.
    rewrite <- (join_split beforeStr), <- (join_split afterStr).
    f_equal. apply some_fmap_inj. congruence.
  - intros ->. apply identical_lines_no_changes.
Qed.

(** What the component does once the guard and both coercions have passed. *)
Lemma DiffViewer_coerced before after fileName beforeStr afterStr :
  toBoolean before = true -> toBoolean after = true ->
  toBoolean fileName = true ->
  coerceToString before = Normal beforeStr ->
  coerceToString after = Normal afterStr ->
  DiffViewer before after fileName
  = let diffLines := generateDiff beforeStr afterStr in
    if hasChanges diffLines
    then Normal (DiffResult fileName (countType addition diffLines)
                            (countType deletion diffLines) diffLines)
    else Normal NoDifferences.
Proof.
  intros Hb Ha Hf Hbs Has. unfold DiffViewer, tryBlock.
  rewrite Hb, Ha, Hf, Hbs, Has. simpl.
  destruct (hasChanges _); reflexivity.
Qed.

(** X2. With three truthy inputs whose conversions to a string succeed, the
    component reports no differences exactly when the two converted texts
    are equal; when they differ it returns the diff view of the two texts
    under the given name. *)
Theorem no_differences_iff_equal_texts
    (before after fileName : JsValue) (beforeStr afterStr : string) :
  toBoolean before = true -> toBoolean after = true ->
  toBoolean fileName = true ->
  coerceToString before = Normal beforeStr ->
  coerceToString after = Normal afterStr ->
  (DiffViewer before after fileName = Normal NoDifferences
   <-> beforeStr = afterStr)
  /\ (beforeStr <> afterStr ->
      let records := generateDiff beforeStr afterStr in
      DiffViewer before after fileName
      = Normal (DiffResult fileName (countRecords addition records)
                           (countRecords deletion records) records)).
Proof.
  intros Hb Ha Hf Hbs Has.
  rewrite (DiffViewer_coerced _ _ _ _ _ Hb Ha Hf Hbs Has). simpl.
  destruct (hasChanges _) eqn:Hch.
  - assert (Hne : beforeStr <> afterStr).
    { intros Heq. apply hasChanges_iff_different in Heq. congruence. }
    split; [split; [discriminate | intros Heq; contradiction]|].
    intros _. rewrite !countType_countRecords. reflexivity.
  - apply hasChanges_iff_different in Hch.
    split; [split; [intros _; assumption | reflexivity]|].
    intros Hne. contradiction.
Qed.

Lemma no_differences_iff_equal_texts_witness :
  DiffViewer (JsOther true (Normal "")) (JsString "x") (JsString "f")
  = Normal (DiffResult (JsString "f") 1 1
              [mkLine deletion (Some "") (Some 1) None;
               mkLine addition (Some "x") None (Some 1)]).
Proof.
  apply (proj2 (no_differences_iff_equal_texts
                  (JsOther true (Normal "")) (JsString "x") (JsString "f")
                  "" "x" eq_refl eq_refl eq_refl eq_refl eq_refl)).
  discriminate.
Defined.

(** ** The outcomes, case by case *)

Lemma tryCatch_not_invalid before after fileName :
  tryCatch (tryBlock before after fileName) (catchBlock before after fileName)
  <> Normal InvalidInput.
Proof.
  unfold tryBlock, tryCatch.
  destruct (coerceToString before) as [b|e]; simpl;
    [|rewrite catchBlock_throws; discriminate].
  destruct (coerceToString after) as [a|e]; simpl;
    [|rewrite catchBlock_throws; discriminate].
  destruct (hasChanges _); simpl; discriminate.
Qed.

(** X3. The component returns the invalid-input outcome exactly when one of
    its three inputs is falsy: besides [null], [undefined] and the empty
    string, a falsy value of another type (0, [NaN], [false]) is rejected
    as missing too, and no truthy triple is. *)
Theorem invalid_input_iff_falsy (before after fileName : JsValue) :
  DiffViewer before after fileName = Normal InvalidInput
  <-> toBoolean before = false \/ toBoolean after = false
      \/ toBoolean fileName = false.
Proof.
  unfold DiffViewer.
  destruct (toBoolean before), (toBoolean after), (toBoolean fileName); simpl;
    split; intros H; try reflexivity; try tauto.
  - exfalso. exact (tryCatch_not_invalid _ _ _ H).
  - destruct H as [H|[H|H]]; discriminate H.
Qed.


(** ** Accounting of the rows *)

Lemma length_countRecords (records : list DiffLine) :
  length records
  = countRecords context records + countRecords addition records
    + countRecords deletion records.
Proof.
  induction records as [|[[] c o n] rest IH]; simpl; [reflexivity| | |];
    repeat case_decide; try congruence; lia.
Qed.

Lemma splitFrom_length_pos seg text : 1 <= length (splitFrom seg text).
Proof. rewrite splitFrom_length. lia. Qed.

(** X5. The rows of [generateDiff] are as many as the lines of the two
    texts together, less one for every context row, which stands for a line
    of each; so there are at least as many rows as either text has lines,
    and never none. *)
Theorem row_accounting (beforeStr afterStr : string) :
  let records := generateDiff beforeStr afterStr in
  length records + countRecords context records
  = length (split beforeStr) + length (split afterStr)
  /\ length (split beforeStr) <= length records
  /\ length (split afterStr) <= length records
  /\ 1 <= length records.
Proof.
  intros records.
  destruct (generateDiff_side_lengths beforeStr afterStr) as [Ho Hn].
  destruct (countRecords_sides records) as [Hso Hsn].
  pose proof (length_countRecords records) as Hlen.
  pose proof (splitFrom_length_pos "" beforeStr) as Hpos.
  fold (split beforeStr) in Hpos. fold records in Ho, Hn.
  repeat split; lia.
Qed.

Lemma hasChanges_counted (records : list DiffLine) :
  hasChanges records = true ->
  1 <= countRecords addition records + countRecords deletion records.
Proof.
  induction records as [|[[] c o n] rest IH]; simpl; intros H;
    try discriminate H; repeat case_decide; try congruence; try lia.
  apply IH in H. lia.
Qed.

(** X6. A diff view is only returned when there is something to show: its
    additions and deletions counts are not both zero, and the name it shows
    is the name it was given. *)
Theorem diff_view_has_a_change (before after fileName name : JsValue)
    (adds dels : nat) (records : list DiffLine) :
  DiffViewer before after fileName = Normal (DiffResult name adds dels records) ->
  1 <= adds + dels /\ name = fileName.
Proof.
  unfold DiffViewer. destruct (_ || _); [discriminate|].
  unfold tryBlock, tryCatch.
  destruct (coerceToString before) as [b|e]; simpl;
    [|rewrite catchBlock_throws; discriminate].
  destruct (coerceToString after) as [a|e]; simpl;
    [|rewrite catchBlock_throws; discriminate].
  destruct (hasChanges _) eqn:Hch; simpl; [|discriminate].
  intros [= <- <- <- <-]. rewrite !countType_countRecords.
  split; [apply hasChanges_counted, Hch | reflexivity].
Qed.

Lemma diff_view_has_a_change_witness :
  1 <= 0 + 1 /\ JsString "f" = JsString "f".
Proof.
  apply (diff_view_has_a_change
           (JsString ("a" +:+ nl +:+ "b")) (JsString "a") (JsString "f")
           (JsString "f") 0 1
           [mkLine context (Some "a") (Some 1) (Some 1);
            mkLine deletion (Some "b") (Some 2) None]).
  vm_compute. reflexivity.
Defined.

(** ** Common edits *)

Section Runs.
Variables oldLines newLines : list string.

#[local] Abbreviation cond := (loopCond oldLines newLines).
#[local] Abbreviation body := (loopBody oldLines newLines).
#[local] Abbreviation loop := (whileLoop oldLines newLines).

(** Over a stretch where the two documents carry the same lines, the loop
    pushes one context row per line and moves both cursors past it. *)
Lemma context_run (cs : list string) (st : LoopState) :
  (forall k c, cs !! k = Some c ->
     oldLines !! (oldIndex st + k) = Some c
     /\ newLines !! (newIndex st + k) = Some c) ->
  loop st
  = loop (mkState (oldIndex st + length cs) (newIndex st + length cs)
            (diff st ++ contextFrom (oldIndex st) (newIndex st) cs)).
Proof.
  revert st. induction cs as [|c cs IH]; intros st Hsame.
  - simpl. rewrite !Nat.add_0_r, app_nil_r. destruct st; reflexivity.
  - destruct (Hsame 0 c eq_refl) as [Ho Hn]. rewrite !Nat.add_0_r in Ho, Hn.
    pose proof (lookup_lt_Some _ _ _ Ho) as Hi.
    pose proof (lookup_lt_Some _ _ _ Hn) as Hj.
    rewrite whileLoop_step.
    replace (cond st) with true by (symmetry; apply loopCond_true; lia).
    assert (Hbody : body st = pushContext oldLines st).
    { unfold loopBody. rewrite !bool_decide_eq_false_2 by lia.
      rewrite bool_decide_eq_true_2 by congruence. reflexivity. }
    rewrite Hbody, IH.
    + unfold pushContext. simpl. rewrite Ho, <- app_assoc. simpl.
      f_equal. f_equal; lia.
    + intros k c' Hk. unfold pushContext. simpl.
      destruct (Hsame (S k) c' Hk) as [Ho' Hn'].
      rewrite <- !Nat.add_assoc. simpl. split; assumption.
Qed.

Lemma loop_finished st :
  length oldLines <= oldIndex st -> length newLines <= newIndex st ->
  loop st = st.
Proof.
  intros Hi Hj. rewrite whileLoop_step.
  replace (cond st) with false by (symmetry; apply loopCond_false; lia).
  reflexivity.
Qed.

End Runs.

Lemma lookup_app_at {A} (p s : list A) (k : nat) :
  (p ++ s) !! (length p + k) = s !! k.
Proof. rewrite lookup_app_r by lia. f_equal. lia. Qed.

Lemma common_prefix_run (p s t : list string) :
  whileLoop (p ++ s) (p ++ t) initialState
  = whileLoop (p ++ s) (p ++ t)
      (mkState (length p) (length p) (contextFrom 0 0 p)).
Proof.
  rewrite (context_run (p ++ s) (p ++ t) p initialState); [reflexivity|].
  intros k c Hk. simpl.
  rewrite !lookup_app_l by (eapply lookup_lt_Some, Hk). split; assumption.
Qed.

(** From a state where what is left of both documents is the same run of
    lines [s], the loop ends having pushed one context row per line of [s]. *)
Lemma suffix_run (oldLines newLines s : list string) (st : LoopState) :
  (forall k, oldLines !! (oldIndex st + k) = s !! k) ->
  (forall k, newLines !! (newIndex st + k) = s !! k) ->
  diff (whileLoop oldLines newLines st)
  = diff st ++ contextFrom (oldIndex st) (newIndex st) s.
Proof.
  intros Ho Hn. rewrite (context_run oldLines newLines s st).
  - rewrite loop_finished; simpl; [reflexivity | |];
      apply lookup_ge_None; [rewrite Ho | rewrite Hn];
      apply lookup_ge_None; lia.
  - intros k c Hk. rewrite Ho, Hn. split; assumption.
Qed.

(** X7. Appending lines to a document is reported as that: one context row
    per line of the old document, then one addition per appended line,
    numbered after the old ones. *)
Theorem appended_lines_are_additions (oldLines extra : list string) :
  diff (whileLoop oldLines (oldLines ++ extra) initialState)
  = contextFrom 0 0 oldLines ++ additionsFrom (length oldLines) extra.
Proof.
  rewrite (context_run oldLines (oldLines ++ extra) oldLines initialState).
  - rewrite run_old_exhausted by (simpl; lia). simpl.
    rewrite drop_app_length. reflexivity.
  - intros k c Hk. simpl.
    rewrite lookup_app_l by (eapply lookup_lt_Some, Hk). split; assumption.
Qed.

(** X8. Cutting lines off the end of a document is reported as that: one
    context row per line kept, then one deletion per line cut. *)
Theorem truncated_lines_are_deletions (newLines extra : list string) :
  diff (whileLoop (newLines ++ extra) newLines initialState)
  = contextFrom 0 0 newLines ++ deletionsFrom (length newLines) extra.
Proof.
  rewrite (context_run (newLines ++ extra) newLines newLines initialState).
  - rewrite run_new_exhausted by (simpl; lia). simpl.
    rewrite drop_app_length. reflexivity.
  - intros k c Hk. simpl.
    rewrite lookup_app_l by (eapply lookup_lt_Some, Hk). split; assumption.
Qed.

(** X9. A line [x] inserted between [p] and [s] is reported as one addition
    between the context rows of [p] and of [s], provided [x] differs from
    the first two lines of [s]: were it equal to the first, the two would be
    matched as context; were it equal to the second, the lookahead on the
    old side, which is tried first, would delete the first line of [s]. *)
Theorem inserted_line_is_one_addition (p s : list string) (x : string) :
  s !! 0 <> Some x -> s !! 1 <> Some x ->
  diff (whileLoop (p ++ s) (p ++ x :: s) initialState)
  = contextFrom 0 0 p
    ++ mkLine addition (Some x) None (Some (length p + 1))
    :: contextFrom (length p) (length p + 1) s.
Proof.
  intros H0 H1. rewrite common_prefix_run.
  set (st := mkState (length p) (length p) (contextFrom 0 0 p)).
  assert (Hnew : (p ++ x :: s) !! length p = Some x)
    by (rewrite list_lookup_middle; reflexivity).
  assert (Hbody : loopBody (p ++ s) (p ++ x :: s) st
                  = pushAddition (p ++ x :: s) st).
  { unfold loopBody, pushAddition. simpl. rewrite Hnew.
    pose proof (lookup_app_at p s 0) as Ho0. rewrite Nat.add_0_r in Ho0.
    pose proof (lookup_app_at p s 1) as Ho1.
    pose proof (lookup_app_at p (x :: s) 1) as Hn1. simpl in Hn1.
    rewrite Ho0, Ho1, Hn1. rewrite !length_app. simpl.
    destruct s as [|s0 s']; simpl.
    - rewrite bool_decide_eq_true_2 by lia. reflexivity.
    - rewrite !bool_decide_eq_false_2 by (simpl in *; first [lia | congruence]).
      rewrite bool_decide_eq_true_2 by reflexivity. reflexivity. }
  rewrite whileLoop_step.
  replace (loopCond (p ++ s) (p ++ x :: s) st) with true
    by (symmetry; apply loopCond_true; right; simpl;
        rewrite length_app; simpl; lia).
  rewrite Hbody.
  rewrite (suffix_run (p ++ s) (p ++ x :: s) s).
  - unfold pushAddition. simpl. rewrite Hnew, <- app_assoc. reflexivity.
  - intros k. simpl. apply lookup_app_at.
  - intros k. simpl. rewrite <- Nat.add_assoc. rewrite lookup_app_at.
    reflexivity.
Qed.

Lemma inserted_line_is_one_addition_witness :
  diff (whileLoop (["a"] ++ ["b"; "c"]) (["a"] ++ "x" :: ["b"; "c"])
          initialState)
  = contextFrom 0 0 ["a"]
    ++ mkLine addition (Some "x") None (Some 2)
    :: contextFrom 1 2 ["b"; "c"].
Proof.
  apply (inserted_line_is_one_addition ["a"] ["b"; "c"] "x"); discriminate.
Defined.

(** X10. A line [x] removed from between [p] and [s] is reported as one
    deletion between the context rows of [p] and of [s], provided [x]
    differs from the first line of [s]. *)
Theorem removed_line_is_one_deletion (p s : list string) (x : string) :
  s !! 0 <> Some x ->
  diff (whileLoop (p ++ x :: s) (p ++ s) initialState)
  = contextFrom 0 0 p
    ++ mkLine deletion (Some x) (Some (length p + 1)) None
    :: contextFrom (length p + 1) (length p) s.
Proof.
  intros H0. rewrite common_prefix_run.
  set (st := mkState (length p) (length p) (contextFrom 0 0 p)).
  assert (Hold : (p ++ x :: s) !! length p = Some x)
    by (rewrite list_lookup_middle; reflexivity).
  assert (Hbody : loopBody (p ++ x :: s) (p ++ s) st
                  = pushDeletion (p ++ x :: s) st).
  { unfold loopBody, pushDeletion. simpl. rewrite Hold.
    pose proof (lookup_app_at p s 0) as Hn0. rewrite Nat.add_0_r in Hn0.
    pose proof (lookup_app_at p (x :: s) 1) as Ho1. simpl in Ho1.
    rewrite Hn0, Ho1. rewrite !length_app. simpl.
    rewrite bool_decide_eq_false_2 by lia.
    destruct s as [|s0 s']; simpl.
    - rewrite bool_decide_eq_true_2 by lia. reflexivity.
    - rewrite !bool_decide_eq_false_2 by (simpl in *; first [lia | congruence]).
      rewrite bool_decide_eq_true_2 by reflexivity. reflexivity. }
  rewrite whileLoop_step.
  replace (loopCond (p ++ x :: s) (p ++ s) st) with true
    by (symmetry; apply loopCond_true; left; simpl;
        rewrite length_app; simpl; lia).
  rewrite Hbody.
  rewrite (suffix_run (p ++ x :: s) (p ++ s) s).
  - unfold pushDeletion. simpl. rewrite Hold, <- app_assoc. reflexivity.
  - intros k. simpl. rewrite <- Nat.add_assoc. rewrite lookup_app_at.
    reflexivity.
  - intros k. simpl. apply lookup_app_at.
Qed.

Lemma removed_line_is_one_deletion_witness :
  diff (whileLoop (["a"] ++ "x" :: ["b"]) (["a"] ++ ["b"]) initialState)
  = contextFrom 0 0 ["a"]
    ++ mkLine deletion (Some "x") (Some 2) None :: contextFrom 2 1 ["b"].
Proof.
  apply (removed_line_is_one_deletion ["a"] ["b"] "x"). discriminate.
Defined.

(** X11. A line [a] replaced by a different line [b] between [p] and [s] is
    reported as a deletion of [a] followed at once by an addition of [b],
    between the context rows of [p] and of [s], provided the first line of
    [s] is neither [a] nor [b]. *)
Theorem replaced_line_is_one_pair (p s : list string) (a b : string) :
  a <> b -> s !! 0 <> Some a -> s !! 0 <> Some b ->
  diff (whileLoop (p ++ a :: s) (p ++ b :: s) initialState)
  = contextFrom 0 0 p
    ++ mkLine deletion (Some a) (Some (length p + 1)) None
    :: mkLine addition (Some b) None (Some (length p + 1))
    :: contextFrom (length p + 1) (length p + 1) s.
Proof.
  intros Hab Ha Hb. rewrite common_prefix_run.
  set (st := mkState (length p) (length p) (contextFrom 0 0 p)).
  assert (Hold : (p ++ a :: s) !! length p = Some a)
    by (rewrite list_lookup_middle; reflexivity).
  assert (Hnew : (p ++ b :: s) !! length p = Some b)
    by (rewrite list_lookup_middle; reflexivity).
  assert (Hbody : loopBody (p ++ a :: s) (p ++ b :: s) st
                  = pushAddition (p ++ b :: s) (pushDeletion (p ++ a :: s) st)).
  { unfold loopBody, pushAddition, pushDeletion. simpl. rewrite Hold, Hnew.
    pose proof (lookup_app_at p (a :: s) 1) as Ho1. simpl in Ho1.
    pose proof (lookup_app_at p (b :: s) 1) as Hn1. simpl in Hn1.
    rewrite Ho1, Hn1. rewrite !length_app. simpl.
    rewrite !bool_decide_eq_false_2 by first [lia | congruence].
    rewrite <- app_assoc. reflexivity. }
  rewrite whileLoop_step.
  replace (loopCond (p ++ a :: s) (p ++ b :: s) st) with true
    by (symmetry; apply loopCond_true; left; simpl;
        rewrite length_app; simpl; lia).
  rewrite Hbody.
  rewrite (suffix_run (p ++ a :: s) (p ++ b :: s) s).
  - unfold pushAddition, pushDeletion. simpl.
    rewrite Hold, Hnew, <- !app_assoc. reflexivity.
  - intros k. simpl. rewrite <- Nat.add_assoc. rewrite lookup_app_at.
    reflexivity.
  - intros k. simpl. rewrite <- Nat.add_assoc. rewrite lookup_app_at.
    reflexivity.
Qed.

Lemma replaced_line_is_one_pair_witness :
  diff (whileLoop (["a"] ++ "b" :: ["c"]) (["a"] ++ "z" :: ["c"]) initialState)
  = contextFrom 0 0 ["a"]
    ++ mkLine deletion (Some "b") (Some 2) None
    :: mkLine addition (Some "z") None (Some 2)
    :: contextFrom 2 2 ["c"].
Proof.
  apply (replaced_line_is_one_pair ["a"] ["c"] "b" "z"); discriminate.
Defined.

(** ** The rows as shown *)

Lemma getLinePrefix_inj (t1 t2 : LineType) :
  getLinePrefix t1 = getLinePrefix t2 -> t1 = t2.
Proof. destruct t1, t2; simpl; intros H; try reflexivity; discriminate H. Qed.

Lemma gutter_successor (i : nat) : gutter (Some (i + 1)) = Shown (i + 1).
Proof. rewrite Nat.add_1_r. reflexivity. Qed.

Lemma renderRow_inj_sound (oldLines newLines : list string) (r1 r2 : DiffLine) :
  rowSound oldLines newLines r1 -> rowSound oldLines newLines r2 ->
  renderRow r1 = renderRow r2 -> r1 = r2.
Proof.
  destruct r1 as [t1 c1 o1 n1], r2 as [t2 c2 o2 n2].
  unfold rowSound, renderRow. simpl.
  intros [_ H1] [_ H2] [= _ Ho Hn _ Hp ->].
  apply getLinePrefix_inj in Hp. subst t2.
  destruct t1.
  - destruct H1 as [-> (j1 & -> & _)], H2 as [-> (j2 & -> & _)].
    rewrite !gutter_successor in Hn. congruence.
  - destruct H1 as [(i1 & -> & _) ->], H2 as [(i2 & -> & _) ->].
    rewrite !gutter_successor in Ho. congruence.
  - destruct H1 as [(i1 & -> & _) (j1 & -> & _)],
             H2 as [(i2 & -> & _) (j2 & -> & _)].
    rewrite !gutter_successor in Ho, Hn. congruence.
Qed.

(** X12. Showing the rows loses nothing: two rows the aligner produced that
    are shown alike (style, both gutters, colour, prefix, content) are the
    same row.  That rests on line numbers starting at 1, since
    [lineNumber || ''] would show a line number 0 as a blank gutter. *)
Theorem shown_rows_are_distinct (oldLines newLines : list string)
    (r1 r2 : DiffLine) :
  r1 ∈ diff (whileLoop oldLines newLines initialState) ->
  r2 ∈ diff (whileLoop oldLines newLines initialState) ->
  renderRow r1 = renderRow r2 -> r1 = r2.
Proof.
  intros H1 H2.
  pose proof (rowSound_loop oldLines newLines) as Hall.
  rewrite Forall_forall in Hall.
  apply (renderRow_inj_sound oldLines newLines); apply Hall; assumption.
Qed.

Lemma shown_rows_are_distinct_witness :
  mkLine deletion (Some "b") (Some 1) None
  = mkLine deletion (Some "b") (Some 1) None.
Proof.
  apply (shown_rows_are_distinct ["b"] ["z"]);
    [vm_compute; apply list_elem_of_here | vm_compute; apply list_elem_of_here
    | reflexivity].
Defined.

(** X13. In the rows the aligner produces, the gutter of old line numbers is
    blank exactly on the addition rows and the gutter of new line numbers
    exactly on the deletion rows. *)
Theorem blank_gutters (oldLines newLines : list string) :
  Forall (fun r => (gutter (oldLineNumber r) = Blank <-> type r = addition)
                   /\ (gutter (newLineNumber r) = Blank <-> type r = deletion))
         (diff (whileLoop oldLines newLines initialState)).
Proof.
  eapply Forall_impl; [apply rowSound_loop|].
  intros [t c o n] [_ H]. simpl in *.
  destruct t.
  - destruct H as [-> (j & -> & _)]. rewrite gutter_successor.
    split; split; intros H; try reflexivity; discriminate H.
  - destruct H as [(i & -> & _) ->]. rewrite gutter_successor.
    split; split; intros H; try reflexivity; discriminate H.
  - destruct H as [(i & -> & _) (j & -> & _)]. rewrite !gutter_successor.
    split; split; intros H; discriminate H.
Qed.

(** * Properties of the pages *)

(** ** Login *)



(** X15. The text shown tells the failures apart: an answer without a truthy
    address shows that no authorization URL was received, an address that
    does not parse shows that it is invalid, and a request aborted on
    timeout (code [ECONNABORTED]) shows the timeout text whatever its status
    and message are. *)
Theorem login_failure_texts (parsesAsURL : JsValue -> bool) (st : LoginState) :
  (forall url, toBoolean url = false ->
     errorShown (handleLogin parsesAsURL (Resolved url) st)
     = "No authorization URL received from server")
  /\ (forall url, toBoolean url = true -> parsesAsURL url = false ->
       errorShown (handleLogin parsesAsURL (Resolved url) st)
       = "Invalid authorization URL received")
  /\ (forall status text,
       errorShown (handleLogin parsesAsURL
                     (Rejected (mkRequestError (Some "ECONNABORTED") status text))
                     st)
       = "Connection timeout. Please try again.").
Proof.
  unfold handleLogin, loginTry. repeat split.
  - intros url ->. reflexivity.
  - intros url -> ->. reflexivity.
Qed.

Lemma login_failure_texts_witness :
  errorShown (handleLogin (fun _ => false) (Resolved JsNull)
                (mkLogin false "" None))
  = "No authorization URL received from server"
  /\ errorShown (handleLogin (fun _ => false) (Resolved (JsString "nowhere"))
                   (mkLogin false "" None))
     = "Invalid authorization URL received".
Proof.
  split.
  - apply (proj1 (login_failure_texts (fun _ => false) (mkLogin false "" None))).
    reflexivity.
  - apply (proj1 (proj2 (login_failure_texts (fun _ => false)
                           (mkLogin false "" None)))); reflexivity.
Defined.

(** ** Callback and repositories *)

Lemma fetchToken_sets_hasfetched backend code response c w :
  hasfetched (fst (fetchToken backend code response c w)) = true.
Proof.
  unfold fetchToken. destruct (hasfetched c) eqn:Hc; [exact Hc|].
  destruct code as [code|]; [|reflexivity].
  case_bool_decide; reflexivity.
Qed.

(** X16. [fetchToken] does its work once: run again, with whatever code and
    whatever answer, it changes nothing and requests nothing.  Without a
    code in the address (absent or empty) the first run itself requests
    nothing, stores nothing and navigates nowhere, and leaves the loading
    flag as it was. *)
Theorem fetchToken_runs_once (backend : string) (code code' : option string)
    (response response' : Response JsValue) (c : CallbackState) (w : World) :
  let result := fetchToken backend code response c w in
  fetchToken backend code' response' (fst result) (snd result) = result
  /\ (code = None \/ code = Some "" ->
      snd result = w /\ loading (fst result) = loading c).
Proof.
  simpl. split.
  - pose proof (fetchToken_sets_hasfetched backend code response c w) as H.
    destruct (fetchToken backend code response c w) as [c1 w1]. simpl in *.
    unfold fetchToken. rewrite H. reflexivity.
  - unfold fetchToken. intros [-> | ->]; destruct (hasfetched c); split;
      reflexivity.
Qed.

Lemma fetchToken_runs_once_witness :
  let c := mkCallback false true in
  let w := mkWorld ∅ "/callback" [] in
  snd (fetchToken "http://api" None (Resolved JsNull) c w) = w
  /\ loading (fst (fetchToken "http://api" None (Resolved JsNull) c w)) = true.
Proof.
  intros c w.
  apply (proj2 (fetchToken_runs_once "http://api" None None (Resolved JsNull)
                  (Resolved JsNull) c w)).
  left. reflexivity.
Defined.

(** X17. A first run of [fetchToken] with a code sends exactly one request,
    for that code, and clears the loading flag.  The token is stored, and
    the user sent to [/repos], only when the request resolves with a truthy
    access token that can be turned into a string; in every other case
    nothing is stored and the user is sent to [/login]. *)
Theorem fetchToken_stores_or_sends_back (backend code : string)
    (response : Response JsValue) (c : CallbackState) (w : World) :
  hasfetched c = false -> code <> "" ->
  let result := fetchToken backend (Some code) response c w in
  fst result = mkCallback true false
  /\ requests (snd result)
     = requests w ++ [backend +:+ "/auth/callback?code=" +:+ code]
  /\ match response with
     | Resolved token =>
         match coerceToString token with
         | Normal stored =>
             if toBoolean token
             then localStorage (snd result)
                  = <["access_token" := stored]> (localStorage w)
                  /\ route (snd result) = "/repos"
             else localStorage (snd result) = localStorage w
                  /\ route (snd result) = "/login"
         | Throw _ => localStorage (snd result) = localStorage w
                      /\ route (snd result) = "/login"
         end
     | Rejected _ => localStorage (snd result) = localStorage w
                     /\ route (snd result) = "/login"
     end.
Proof.
  intros Hc Hcode. unfold fetchToken. rewrite Hc.
  rewrite bool_decide_eq_false_2 by assumption. simpl.
  destruct response as [token|error]; simpl.
  - destruct (coerceToString token), (toBoolean token); simpl;
      repeat split; reflexivity.
  - repeat split; reflexivity.
Qed.

Lemma fetchToken_stores_or_sends_back_witness :
  let result := fetchToken "http://api" (Some "c0de") (Resolved (JsString "t0k"))
                  (mkCallback false true) (mkWorld ∅ "/callback" []) in
  fst result = mkCallback true false
  /\ requests (snd result) = [] ++ ["http://api/auth/callback?code=c0de"]
  /\ localStorage (snd result) = <["access_token" := "t0k"]> ∅
     /\ route (snd result) = "/repos".
Proof.
  apply (fetchToken_stores_or_sends_back "http://api" "c0de"
           (Resolved (JsString "t0k")) (mkCallback false true)
           (mkWorld ∅ "/callback" [])); [reflexivity | discriminate].
Defined.

(** X18. The token stored by the callback page is the one the repositories
    page sends: after a first run of [fetchToken] answered with a non-empty
    token text, [fetchRepos] requests the repositories with exactly that
    token and, when answered, shows the array received (an empty list for a
    falsy answer) without navigating. *)
Theorem stored_token_is_sent (backend : string) (Repo : Type)
    (code token : string) (c : CallbackState) (w : World)
    (data : option (list Repo)) (r : ReposState Repo) :
  hasfetched c = false -> code <> "" -> token <> "" ->
  let w1 := snd (fetchToken backend (Some code) (Resolved (JsString token)) c w) in
  localStorage w1 !! "access_token" = Some token
  /\ fetchRepos backend Repo (Resolved data) r w1
     = (mkRepos (default [] data) false,
        request (backend +:+ "/github/repos?token=" +:+ token) w1)
  /\ route (snd (fetchRepos backend Repo (Resolved data) r w1)) = "/repos".
Proof.
  intros Hc Hcode Htoken. unfold fetchToken. rewrite Hc.
  rewrite bool_decide_eq_false_2 by assumption. simpl.
  rewrite (bool_decide_eq_false_2 _ Htoken). simpl.
  unfold fetchRepos. simpl. rewrite lookup_insert_eq.
  rewrite (bool_decide_eq_false_2 _ Htoken). repeat split.
Qed.

Lemma stored_token_is_sent_witness :
  let w1 := snd (fetchToken "http://api" (Some "c0de") (Resolved (JsString "t0k"))
                   (mkCallback false true) (mkWorld ∅ "/callback" [])) in
  localStorage w1 !! "access_token" = Some "t0k"
  /\ fetchRepos "http://api" nat (Resolved (Some [7])) (mkRepos [] true) w1
     = (mkRepos [7] false,
        request ("http://api" +:+ "/github/repos?token=" +:+ "t0k") w1)
  /\ route (snd (fetchRepos "http://api" nat (Resolved (Some [7]))
                   (mkRepos [] true) w1)) = "/repos".
Proof.
  apply (stored_token_is_sent "http://api" nat "c0de" "t0k"
           (mkCallback false true) (mkWorld ∅ "/callback" [])
           (Some [7]) (mkRepos [] true)); [reflexivity | discriminate | discriminate].
Defined.

(** X19. After [handleLogout] the token is gone and the user is at
    [/login]; loading the repositories page then sends no request, keeps
    its state and leaves the user at [/login], whatever the server would
    have answered. *)
Theorem logout_then_repos (backend : string) (Repo : Type)
    (response : Response (option (list Repo))) (r : ReposState Repo)
    (w : World) :
  localStorage (handleLogout w) !! "access_token" = None
  /\ route (handleLogout w) = "/login"
  /\ requests (handleLogout w) = requests w
  /\ fetchRepos backend Repo response r (handleLogout w) = (r, handleLogout w).
Proof.
  unfold handleLogout, fetchRepos. simpl. rewrite lookup_delete_eq.
  repeat split.
Qed.

(** ** Text appended to a document *)

Lemma splitFrom_app (seg a b : string) :
  splitFrom seg (a +:+ String newline b) = splitFrom seg a ++ split b.
Proof.
  revert seg. induction a as [|c a IH]; intros seg; [reflexivity|].
  rewrite append_cons. simpl. case_bool_decide; rewrite IH; reflexivity.
Qed.

(** X20. Text appended to a document after a newline is reported as one
    context row per line of the document followed by one addition per
    appended line; symmetrically, text cut off from a newline on is
    reported as context rows followed by deletions.  A lone final newline
    counts: it adds, or removes, one empty last line. *)
Theorem appended_text_is_additions (text more : string) :
  generateDiff text (text +:+ String newline more)
  = contextFrom 0 0 (split text)
    ++ additionsFrom (length (split text)) (split more)
  /\ generateDiff (text +:+ String newline more) text
     = contextFrom 0 0 (split text)
       ++ deletionsFrom (length (split text)) (split more).
Proof.
  unfold generateDiff, split. rewrite !splitFrom_app. fold (split text).
  split.
  - rewrite (context_run (split text) (split text ++ split more) (split text)
               initialState).
    + rewrite run_old_exhausted by (simpl; lia). simpl.
      rewrite drop_app_length. reflexivity.
    + intros k c Hk. simpl.
      rewrite lookup_app_l by (eapply lookup_lt_Some, Hk). split; assumption.
  - rewrite (context_run (split text ++ split more) (split text) (split text)
               initialState).
    + rewrite run_new_exhausted by (simpl; lia). simpl.
      rewrite drop_app_length. reflexivity.
    + intros k c Hk. simpl.
      rewrite lookup_app_l by (eapply lookup_lt_Some, Hk). split; assumption.
Qed.
